(** * PropertyScraper: a shallow embedding of [property_scraper.py]

    The development follows the source file top to bottom:

    - [Py]: the fragment of Python the program relies on (JSON-decoded
      values, exceptions, output streams, slicing, [str.split],
      [str.strip], attribute access on named tuples);
    - [world]: the collaborators that are not part of the repository
      (the HTTP client, the HTML parser, the JSON decoder, the URL
      validator, the file system);
    - [Scraper]: class [PropertyScraper];
    - [Manager]: class [DownloadManager], its [Worker] threads as an
      interleaving step function over a shared queue and a shared store;
    - the theorems, one block per claim. *)

From Stdlib Require Import ZArith Ascii PrimFloat Lia.
From stdpp Require Import base option list sets strings.

Local Open Scope Z_scope.

(** ** The Python fragment *)

Module Py.

(** Exceptions that the program can meet. [SystemExit] carries the
    argument of [sys.exit]; a bare [sys.exit()] is [SystemExit None]. *)
Inductive exn : Type :=
| SystemExit (code : option Z)
| IndexError
| KeyError (key : string)
| TypeError
| AttributeError (attr : string)
| ValueError
| OverflowError
| MissingSchema
| RequestException
| ParserError
| FileNotFoundError
| OSError
| AssertionError
| InterfaceError.

Inductive result (A : Type) : Type :=
| Ok (a : A)
| Raise (e : exn).
Arguments Ok {A} a.
Arguments Raise {A} e.

#[export] Instance result_ret : MRet result := @Ok.
#[export] Instance result_bind : MBind result := λ A B f m,
  match m with Ok a => f a | Raise e => Raise e end.

(** What the program writes on the two standard streams; [Traceback e]
    is the traceback of an uncaught [e] on the error stream. *)
Inductive output : Type :=
| Stdout (line : string)
| Stderr (line : string)
| Traceback (e : exn).

(** What [threading] writes when an exception leaves the [run] of a
    thread: its traceback, except for [SystemExit], which is ignored
    silently. *)
Definition excepthook (e : exn) : list output :=
  match e with
  | SystemExit _ => []
  | _ => [Traceback e]
  end.

(** Code that may print and may raise: the lines written so far and
    the outcome. *)
Record io (A : Type) : Type := IO { out : list output; res : result A }.
Arguments IO {A} out res.
Arguments out {A} i.
Arguments res {A} i.

#[export] Instance io_ret : MRet io := λ A a, IO [] (Ok a).
#[export] Instance io_bind : MBind io := λ A B f m,
  match res m with
  | Ok a => IO (out m ++ out (f a)) (res (f a))
  | Raise e => IO (out m) (Raise e)
  end.

Definition lift {A} (r : result A) : io A := IO [] r.
Definition write (o : output) : io unit := IO [o] (Ok tt).
Definition raise {A} (e : exn) : io A := IO [] (Raise e).
(** [sys.exit()] and the builtin [exit()], both without argument. *)
Definition sys_exit {A} : io A := raise (SystemExit None).

(** [try: body except E: handler] for a handler selected by a test on
    the exception. *)
Definition try_except {A} (body : io A) (caught : exn → bool)
    (handler : io A) : io A :=
  match res body with
  | Ok a => body
  | Raise e =>
      if caught e then IO (out body ++ out handler) (res handler) else body
  end.

Definition is_IndexError (e : exn) : bool :=
  match e with IndexError => true | _ => false end.
Definition is_MissingSchema (e : exn) : bool :=
  match e with MissingSchema => true | _ => false end.
Definition is_FileNotFoundError (e : exn) : bool :=
  match e with FileNotFoundError => true | _ => false end.
Definition is_AssertionError (e : exn) : bool :=
  match e with AssertionError => true | _ => false end.

(** [assert cond]. *)
Definition py_assert (cond : bool) : io unit :=
  if cond then IO [] (Ok tt) else IO [] (Raise AssertionError).

(** Values produced by [json.loads]. After [json2obj] every object is
    a named tuple whose fields are the object's keys, in order. *)
#[warnings="-register-all"]
Inductive value : Type :=
| VNone
| VBool (b : bool)
| VInt (z : Z)
| VFloat (f : float)
| VStr (s : string)
| VList (items : list value)
| VObj (fields : list (string * value)).

Fixpoint assoc (k : string) (fields : list (string * value)) : option value :=
  match fields with
  | [] => None
  | (k', v) :: rest => if String.eqb k k' then Some v else assoc k rest
  end.

(** [d[key]] on a decoded JSON value. *)
Definition getitem (v : value) (key : string) : result value :=
  match v with
  | VObj fields =>
      match assoc key fields with
      | Some x => Ok x
      | None => Raise (KeyError key)
      end
  | _ => Raise TypeError
  end.

(** [obj.attr] for a field name [attr]; none of the names the program
    uses is a method of [tuple], [list] or [str]. *)
Definition getattr (v : value) (attr : string) : result value :=
  match v with
  | VObj fields =>
      match assoc attr fields with
      | Some x => Ok x
      | None => Raise (AttributeError attr)
      end
  | _ => Raise (AttributeError attr)
  end.

(** Truth value of an object, as tested by [if]. *)
Definition truthy (v : value) : bool :=
  match v with
  | VNone => false
  | VBool b => b
  | VInt z => negb (z =? 0)
  | VFloat f => negb (PrimFloat.eqb f PrimFloat.zero)
  | VStr s => negb (String.eqb s "")
  | VList items => match items with [] => false | _ => true end
  | VObj fields => match fields with [] => false | _ => true end
  end.

Fixpoint chars (s : string) : list value :=
  match s with
  | EmptyString => []
  | String c s' => VStr (String c EmptyString) :: chars s'
  end.

(** The sequence a [for] loop walks through. *)
Definition iter (v : value) : result (list value) :=
  match v with
  | VList items => Ok items
  | VStr s => Ok (chars s)
  | VObj fields => Ok (fields.*2)
  | _ => Raise TypeError
  end.

(** [seq[i]] for a literal index [i >= 0]. *)
Definition subscript (v : value) (i : nat) : result value :=
  match iter v with
  | Ok items =>
      match items !! i with
      | Some x => Ok x
      | None => Raise IndexError
      end
  | Raise e => Raise e
  end.

(** Slice bounds: a negative bound counts from the end, and both
    bounds are clamped to the sequence. *)
Definition clamp (len i : Z) : Z :=
  if i <? 0 then Z.max (i + len) 0 else Z.min i len.

(** [s[start:stop]] on a string. *)
Definition slice (s : string) (start stop : Z) : string :=
  let len := Z.of_nat (String.length s) in
  let lo := clamp len start in
  let hi := clamp len stop in
  String.substring (Z.to_nat lo) (Z.to_nat (hi - lo)) s.

(** [s.split(sep)] for a separator of one character. *)
Fixpoint split (sep : ascii) (s : string) : list string :=
  match s with
  | EmptyString => [EmptyString]
  | String c s' =>
      if Ascii.eqb c sep then EmptyString :: split sep s'
      else match split sep s' with
           | h :: t => String c h :: t
           | [] => [String c EmptyString]
           end
  end.

(** [v.split('?')]: a method of [str] only. A named tuple may have a
    field of that name, which is then not callable. *)
Definition call_split (v : value) (sep : ascii) : result (list string) :=
  match v with
  | VStr s => Ok (split sep s)
  | VObj fields =>
      match assoc "split" fields with
      | Some _ => Raise TypeError
      | None => Raise (AttributeError "split")
      end
  | _ => Raise (AttributeError "split")
  end.

(** White space removed by [str.strip()] (the ASCII part of it). *)
Definition is_space (c : ascii) : bool :=
  let n := nat_of_ascii c in
  ((9 <=? n) && (n <=? 13) || (28 <=? n) && (n <=? 32))%nat.

Fixpoint lstrip (s : string) : string :=
  match s with
  | EmptyString => EmptyString
  | String c s' => if is_space c then lstrip s' else s
  end.

Fixpoint rstrip (s : string) : string :=
  match s with
  | EmptyString => EmptyString
  | String c s' =>
      match rstrip s' with
      | EmptyString => if is_space c then EmptyString else String c EmptyString
      | r => String c r
      end
  end.

Definition strip (s : string) : string := rstrip (lstrip s).

(** [sep.join(items)]: every item must be a [str]. *)
Fixpoint as_strs (items : list value) : result (list string) :=
  match items with
  | [] => Ok []
  | VStr s :: rest => ss ← as_strs rest; Ok (s :: ss)
  | _ :: _ => Raise TypeError
  end.

Definition join (sep : string) (items : list value) : result string :=
  ss ← as_strs items; Ok (String.concat sep ss).

(** Exit status of the interpreter. *)
Inductive termination : Type :=
| Returned                      (* the main module ran to its end *)
| Exited (code : option Z)      (* [SystemExit] reached the top level *)
| Uncaught (e : exn).           (* traceback, status 1 *)

Definition exit_status (t : termination) : Z :=
  match t with
  | Returned => 0
  | Exited None => 0
  | Exited (Some z) => z
  | Uncaught _ => 1
  end.

Definition terminate {A} (r : result A) : termination :=
  match r with
  | Ok _ => Returned
  | Raise (SystemExit code) => Exited code
  | Raise e => Uncaught e
  end.

End Py.
Import Py.

(** ** Collaborators outside the repository *)

(** Values SQLite stores for the parameters of a statement. *)
Inductive sqlval : Type :=
| SqlNull
| SqlInteger (z : Z)
| SqlReal (f : float)
| SqlText (s : string).

(** One row of table [listings], in the order of its columns. *)
Record row : Type := Row {
  col_url : sqlval;
  col_name : sqlval;
  col_market : sqlval;
  col_rating : sqlval;
  col_review_count : sqlval;
  col_type : sqlval;
  col_bed : sqlval;
  col_bath : sqlval;
  col_guest : sqlval;
  col_price : sqlval;
  col_photo_url : sqlval;
  col_description : sqlval;
  col_amenities : sqlval
}.

(** The libraries and the environment the program calls into. Each
    field is the observable behaviour of one call:
    - [open_file path]: [click.open_file(path, 'r')] read line by line;
    - [validators_url s]: whether [validators.url(s)] is truthy;
    - [requests_get url]: the [content] of [requests.get(url)];
    - [json_scripts content]: the [text] of each element selected by
      [//script[@type='application/json']] in [html.fromstring(content)],
      in document order ([None] for an element without text);
    - [json_loads s]: [json.loads(s)], [None] for [JSONDecodeError];
    - [identifier k]: whether [namedtuple] accepts [k] as a field name;
    - [str v]: the builtin [str]. *)
Record world : Type := World {
  open_file : string → result (list string);
  validators_url : string → bool;
  requests_get : string → result string;
  json_scripts : string → result (list (option string));
  json_loads : string → option value;
  identifier : string → bool;
  str : value → string
}.

(** ** class PropertyScraper *)

Module Scraper.
Section WithWorld.
Context (W : world).

Definition throttling : string :=
  "Experiencing throttling from Airbnb. Stopping.".

(** [react_items[2].text[4:-3]] handed to [json.loads]. *)
Definition third_payload (react_items : list (option string)) : result value :=
  match react_items !! 2%nat with
  | None => Raise IndexError
  | Some None => Raise TypeError
  | Some (Some text) =>
      match json_loads W (slice text 4 (-3)) with
      | Some v => Ok v
      | None => Raise ValueError
      end
  end.

(** [__get_full_site_json], on the content of the fetched page. *)
Definition get_full_site_json (content : string) : io value :=
  react_items ← lift (json_scripts W content);
  try_except (lift (third_payload react_items)) is_IndexError
    (write (Stderr throttling);; sys_exit).

Definition get_listing_json (content : string) : io value :=
  site ← get_full_site_json content;
  bootstrap ← lift (getitem site "bootstrapData");
  lift (getitem bootstrap "listing").

(** [json2obj(json.dumps(v))]: every object of [v] becomes a named
    tuple, which [namedtuple] refuses when a key is not a field name. *)
Fixpoint field_names_ok (v : value) : bool :=
  match v with
  | VList items => forallb field_names_ok items
  | VObj fields =>
      forallb (λ kv, match kv with
                     | (k, x) => identifier W k && field_names_ok x
                     end) fields
  | _ => true
  end.

Definition json2obj (v : value) : result value :=
  if field_names_ok v then Ok v else Raise ValueError.

Definition set_listing (content : string) : io value :=
  listing ← get_listing_json content;
  lift (json2obj listing).

(** [PropertyScraper(url)]: the value of [self.listing]. *)
Definition init (url : string) : io value :=
  try_except
    (html ← lift (requests_get W url);
     set_listing html)
    is_MissingSchema
    (write (Stdout ("Invalid URL (?) " +:+ url));; sys_exit).

End WithWorld.
End Scraper.

(** ** class DownloadManager *)

Module Manager.
Section WithWorld.
Context (W : world).

(** *** Worker.__store_db *)

(** The loop over [listing.listing_amenities]; [amenities] is the list
    built so far. *)
Fixpoint present_amenities (items amenities : list value) : result (list value) :=
  match items with
  | [] => Ok amenities
  | amenity :: rest =>
      present ← getattr amenity "is_present";
      if truthy present then
        name ← getattr amenity "name";
        present_amenities rest (amenities ++ [name])
      else present_amenities rest amenities
  end.

(** Binding one parameter of the [insert] statement. *)
Definition bind_param (v : value) : result sqlval :=
  match v with
  | VNone => Ok SqlNull
  | VBool b => Ok (SqlInteger (if b then 1 else 0))
  | VInt z =>
      if (- 2 ^ 63 <=? z) && (z <? 2 ^ 63) then Ok (SqlInteger z)
      else Raise OverflowError
  | VFloat f => Ok (SqlReal f)
  | VStr s => Ok (SqlText s)
  | VList _ | VObj _ => Raise InterfaceError
  end.

(** [photo.large_cover.split('?')[0]]. *)
Definition cover_url (photo : value) : result string :=
  large_cover ← getattr photo "large_cover";
  parts ← call_split large_cover "?";
  match parts !! 0%nat with
  | Some s => Ok s
  | None => Raise IndexError
  end.

(** [__store_db(url, listing)]: the row that is inserted and committed,
    or the exception that leaves the table as it was. The parameters
    are evaluated in the order of the tuple, then bound in that order. *)
Definition store_db (url : string) (listing : value) : result row :=
  listing_amenities ← getattr listing "listing_amenities";
  items ← iter listing_amenities;
  amenities ← present_amenities items [];
  name ← getattr listing "name";
  market ← getattr listing "market";
  review_score ← getattr listing "review_details_interface" ≫= (λ r, getattr r "review_score");
  review_count ← getattr listing "review_details_interface" ≫= (λ r, getattr r "review_count");
  room_and_property_type ← getattr listing "room_and_property_type";
  bed_label ← getattr listing "bed_label";
  bathroom_label ← getattr listing "bathroom_label";
  guest_label ← getattr listing "guest_label";
  price_formatted_for_embed ← getattr listing "price_formatted_for_embed";
  photos ← getattr listing "photos";
  photo ← subscript photos 0;
  photo_url ← cover_url photo;
  description ← getattr listing "description";
  amenities_column ← join "," amenities;
  c_name ← bind_param name;
  c_market ← bind_param market;
  c_type ← bind_param room_and_property_type;
  c_bed ← bind_param bed_label;
  c_bath ← bind_param bathroom_label;
  c_guest ← bind_param guest_label;
  c_price ← bind_param price_formatted_for_embed;
  c_description ← bind_param description;
  Ok {| col_url := SqlText url;
        col_name := c_name;
        col_market := c_market;
        col_rating := SqlText (str W review_score);
        col_review_count := SqlText (str W review_count);
        col_type := c_type;
        col_bed := c_bed;
        col_bath := c_bath;
        col_guest := c_guest;
        col_price := c_price;
        col_photo_url := SqlText photo_url;
        col_description := c_description;
        col_amenities := SqlText amenities_column |}.

(** *** Worker.run *)

(** One turn of the loop body after [get_nowait] returned [url]. *)
Definition scrape (url : string) : io row :=
  listing ← Scraper.init W url;
  lift (store_db url listing).

(** Where a worker thread is: about to call [get_nowait], holding a
    URL it has dequeued, or out of [run] ([Exited None] by the [break]
    on [Queue.Empty], [Exited (Some e)] by the exception [e], which
    nothing in [run] catches). *)
Inductive worker : Type :=
| Idle
| Busy (url : string)
| Exited (by_exn : option exn).

(** The threads with what they share. [dequeued] is history: the URLs
    handed out by [get_nowait] so far, oldest first. *)
Record pool : Type := Pool {
  queue : list string;
  workers : list worker;
  store : list row;
  console : list output;
  dequeued : list string
}.

(** Worker [i] runs until its next call into the queue or the store. *)
Definition step (i : nat) (s : pool) : option pool :=
  match workers s !! i with
  | Some Idle =>
      match queue s with
      | [] =>
          Some (Pool [] (<[i := Exited None]> (workers s))
                  (store s) (console s) (dequeued s))
      | url :: rest =>
          Some (Pool rest (<[i := Busy url]> (workers s))
                  (store s) (console s) (dequeued s ++ [url]))
      end
  | Some (Busy url) =>
      let r := scrape url in
      match res r with
      | Ok inserted =>
          Some (Pool (queue s) (<[i := Idle]> (workers s))
                  (store s ++ [inserted]) (console s ++ out r) (dequeued s))
      | Raise e =>
          Some (Pool (queue s) (<[i := Exited (Some e)]> (workers s))
                  (store s) (console s ++ out r ++ excepthook e) (dequeued s))
      end
  | Some (Exited _) | None => None
  end.

(** A schedule names the worker that moves at each turn. *)
Fixpoint run_schedule (sched : list nat) (s : pool) : option pool :=
  match sched with
  | [] => Some s
  | i :: rest =>
      match step i s with
      | Some s' => run_schedule rest s'
      | None => None
      end
  end.

Definition steps (s s' : pool) : Prop := ∃ sched, run_schedule sched s = Some s'.

Definition exited (w : worker) : bool :=
  match w with Exited _ => true | _ => false end.

(** Every [thread.join()] of [run] has returned. *)
Definition joined (s : pool) : bool := forallb exited (workers s).

(** *** __init_db, __process_input and run *)

(** The table after [__init_db]: created when the file had none, kept
    as it is otherwise. *)
Definition init_db (db : option (list row)) : list row :=
  match db with
  | Some rows => rows
  | None => []
  end.

(** The loop of [__process_input] over the lines of the input. *)
Fixpoint put_all (input queue : list string) : list string :=
  match input with
  | [] => queue
  | url :: rest =>
      let url := strip url in
      match url with
      | EmptyString => put_all rest queue
      | String c _ =>
          if Ascii.eqb c "#" then put_all rest queue
          else put_all rest (queue ++ [url])
      end
  end.

Definition process_input (urls : string) : io (list string) :=
  write (Stdout "Processing urls...");;
  input ← try_except (lift (open_file W urls)) is_FileNotFoundError
            (mret (if validators_url W urls then [strip urls] else []));
  mret (put_all input []).

(** [run], up to the point where every thread has been started. *)
Definition run (conn : Z) (db : list row) (queue : list string) : io pool :=
  try_except (py_assert (negb (bool_decide (queue = []))))
    is_AssertionError (write (Stderr "No URLs given");; sys_exit);;
  let n_conn := Z.min conn (Z.of_nat (length queue)) in
  try_except (py_assert ((1 <=? n_conn) && (n_conn <=? 10000)))
    is_AssertionError
    (write (Stderr "invalid number of concurrent connections"));;
  let threads := replicate (Z.to_nat n_conn) Idle in
  write (Stdout "Scraping begins...");;
  mret (Pool queue threads db [] []).

(** [main]: the constructor of [DownloadManager], then [run]. *)
Definition main (conn : Z) (db : option (list row)) (file : string) : io pool :=
  let table := init_db db in
  queue ← process_input file;
  run conn table queue.

(** The status the process ends with. Exceptions of worker threads end
    their thread and never reach the main thread, so after [run] has
    started the threads the main thread joins them and returns. *)
Definition exit_code (conn : Z) (db : option (list row)) (file : string) : Z :=
  exit_status (terminate (res (main conn db file))).

End WithWorld.
End Manager.

(** ** property_scrapper.py: the single-listing predecessor *)

Module Scrapper.
Section WithWorld.
Context (W : world).

(** [__get_full_site_json] as this file has it: no handler around the
    third element. *)
Definition get_full_site_json (content : string) : io value :=
  react_items ← lift (json_scripts W content);
  lift (Scraper.third_payload W react_items).

Definition get_listing_json (content : string) : io value :=
  site ← get_full_site_json content;
  bootstrap ← lift (getitem site "bootstrapData");
  lift (getitem bootstrap "listing").

Definition set_listing (content : string) : io value :=
  listing ← get_listing_json content;
  lift (Scraper.json2obj W listing).

(** [PropertyScrapper(url)]: the value of [self.listing]. *)
Definition init (url : string) : io value :=
  try_except
    (html ← lift (requests_get W url);
     set_listing html)
    is_MissingSchema
    (write (Stdout "Invalid URL");; sys_exit).

(** [prefix + v] for a [str] on the left: the right side must be one. *)
Definition add_str (prefix : string) (v : value) : result string :=
  match v with
  | VStr s => Ok (prefix +:+ s)
  | _ => Raise TypeError
  end.

(** The tuples [print_listing] appends to [info], each with the
    exception that its expression may raise instead, in the order of
    the [info.append] statements. *)
Definition info_tuples (listing : value) : list (result (list string)) :=
  [ (name ← getattr listing "name";
     line ← add_str "   " name;
     Ok ["Name:"; line]);
    (market ← getattr listing "market";
     line ← add_str "   " market;
     Ok ["Market:"; line]);
    (review_score ← getattr listing "review_details_interface" ≫= (λ r, getattr r "review_score");
     review_count ← getattr listing "review_details_interface" ≫= (λ r, getattr r "review_count");
     Ok ["Rating:";
         "   " +:+ str W review_score +:+ "/100 - " +:+ str W review_count
         +:+ " reviews"]);
    (room_and_property_type ← getattr listing "room_and_property_type";
     line ← add_str "   " room_and_property_type;
     Ok ["Property Type:"; line]);
    (bed_label ← getattr listing "bed_label";
     bed ← add_str "   " bed_label;
     bathroom_label ← getattr listing "bathroom_label";
     bath ← add_str "   " bathroom_label;
     guest_label ← getattr listing "guest_label";
     guest ← add_str "   Guests - " guest_label;
     Ok ["At a Glance:"; bed; bath; guest]);
    (price_formatted_for_embed ← getattr listing "price_formatted_for_embed";
     line ← add_str "   " price_formatted_for_embed;
     Ok ["Price:"; line]);
    (photos ← getattr listing "photos";
     photo ← subscript photos 0;
     photo_url ← Manager.cover_url photo;
     Ok ["Photo:"; "   " +:+ photo_url]);
    (description ← getattr listing "description";
     line ← add_str "   " description;
     Ok ["Description:"; line]) ].

(** The [info.append] statements run on the list [info]: the list as
    they leave it, and the exception that stopped them, if any. *)
Fixpoint append_all (tuples : list (result (list string)))
    (info : list (list string)) : list (list string) * result unit :=
  match tuples with
  | [] => (info, Ok tt)
  | Ok t :: rest => append_all rest (info ++ [t])
  | Raise e :: _ => (info, Raise e)
  end.

(** [print_info(i)]: the elements of the tuple, then an empty line. *)
Definition print_info (i : list string) : list output :=
  (Stdout <$> i) ++ [Stdout ""].

(** The loop that prints the names of the present amenities. *)
Fixpoint print_amenities (items : list value) : io unit :=
  match items with
  | [] => mret tt
  | a :: rest =>
      present ← lift (getattr a "is_present");
      if truthy present then
        line ← lift (getattr a "name" ≫= add_str "   ");
        write (Stdout line);;
        print_amenities rest
      else print_amenities rest
  end.

(** [print_listing(listing, info)]. The default value of [info] is one
    list for all calls, so the function takes the list as it is at the
    call and returns it as it is afterwards. *)
Definition print_listing (listing : value) (info : list (list string))
    : list (list string) * io unit :=
  let appended := append_all (info_tuples listing) info in
  (appended.1,
   lift appended.2;;
   IO (appended.1 ≫= print_info) (Ok tt);;
   write (Stdout "Amenities:");;
   items ← lift (getattr listing "listing_amenities" ≫= iter);
   print_amenities items).

Definition usage_print (argv : list string) : io unit :=
  write (Stdout "Usage:");;
  name ← lift (match argv !! 0%nat with
               | Some a => Ok a
               | None => Raise IndexError
               end);
  write (Stdout (name +:+ " <listing_url>"));;
  write (Stdout "").

(** [main(argv)]: the first call of [print_listing] in the process. *)
Definition main (argv : list string) : io unit :=
  url ← lift (match argv !! 1%nat with
              | Some a => Ok a
              | None => Raise IndexError
              end);
  listing ← init url;
  (print_listing listing []).2.

(** The module run as a script with the arguments [argv]. *)
Definition script (argv : list string) : io unit :=
  if (length argv =? 2)%nat then main argv else usage_print argv.

End WithWorld.
End Scrapper.

(** ** A small world to run the program in *)

Module Sample.

Definition amenity (name : string) (present : bool) : value :=
  VObj [("name", VStr name); ("is_present", VBool present)].

Definition photo (cover : string) : value :=
  VObj [("large_cover", VStr cover)].

(** A listing with every field [__store_db] reads, but for [photos] and
    [name], which the caller chooses. *)
Definition listing_with (name : list (string * value)) (photos : list value) : value :=
  VObj (name ++
        [("market", VStr "Denver");
         ("review_details_interface",
            VObj [("review_score", VInt 96); ("review_count", VInt 12)]);
         ("room_and_property_type", VStr "Entire loft");
         ("bed_label", VStr "2 beds");
         ("bathroom_label", VStr "1 bath");
         ("guest_label", VStr "4 guests");
         ("price_formatted_for_embed", VStr "$120");
         ("photos", VList photos);
         ("description", VStr "Sunny loft");
         ("listing_amenities", VList [amenity "Wifi" true; amenity "Pool" false])]).

Definition listing : value :=
  listing_with [("name", VStr "Loft")]
    [photo "https://img/1.jpg?aki_policy=large"; photo "https://img/2.jpg"].

Definition site (l : value) : value :=
  VObj [("bootstrapData", VObj [("listing", l)])].

(** Decimal digits of a non-negative integer below 100, enough for the
    ratings used here. *)
Definition digit (z : Z) : string :=
  String (ascii_of_nat (48 + Z.to_nat z)) EmptyString.

Definition show (v : value) : string :=
  match v with
  | VStr s => s
  | VInt z => if z <? 10 then digit z else digit (z / 10) +:+ digit (z mod 10)
  | _ => "None"
  end.

(** The pages of this world; the address stands for the body served
    there. Four addresses misbehave: one serves two JSON script
    elements only, one a payload that does not decode, one a listing
    without [name], one a listing without photos. *)
Definition scripts_at (content : string) : result (list (option string)) :=
  if String.eqb content "http://bnb/throttled"
  then Ok [Some "<!--{}-->"; Some "<!--{}-->"]
  else Ok [Some "<!--{}-->"; None; Some ("<!--" +:+ content +:+ "-->")].

(** The decoder of this world: a payload is the address of its page. *)
Definition decode (s : string) : option value :=
  if String.eqb s "http://bnb/garbled" then None
  else if String.eqb s "http://bnb/nameless" then Some (site (listing_with [] [photo "p"]))
  else if String.eqb s "http://bnb/nophoto" then Some (site (listing_with [("name", VStr "Loft")] []))
  else Some (site listing).

(** The files of this world: two lists of addresses and a directory. *)
Definition files (path : string) : result (list string) :=
  if String.eqb path "urls.txt"
  then Ok ["# rooms"; ""; " http://bnb/1 "; "http://bnb/2"]
  else if String.eqb path "mixed.txt"
  then Ok ["http://bnb/throttled"; "http://bnb/1"; "http://bnb/2"]
  else if String.eqb path "/tmp" then Raise OSError
  else Raise FileNotFoundError.

Definition has_scheme (s : string) : bool := String.prefix "http://" s.

Definition fetch (url : string) : result string :=
  if has_scheme url then Ok url else Raise MissingSchema.

Definition earth : world :=
  {| open_file := files;
     validators_url := has_scheme;
     requests_get := fetch;
     json_scripts := scripts_at;
     json_loads := decode;
     identifier := λ _, true;
     str := show |}.

End Sample.

(** A second world, like [Sample.earth] but for its decoder: every
    payload decodes to the empty object. *)
Definition barren : world :=
  {| open_file := Sample.files;
     validators_url := Sample.has_scheme;
     requests_get := Sample.fetch;
     json_scripts := Sample.scripts_at;
     json_loads := λ _, Some (VObj []);
     identifier := λ _, true;
     str := Sample.show |}.

(** ** Vocabulary of the statements *)

Import Manager.

(** [a] is an amenity object with name [np.1] and presence flag [np.2];
    the name of an absent amenity is never looked at. *)
Definition amenity_of (a : value) (np : string * bool) : Prop :=
  getattr a "is_present" = Ok (VBool np.2)
  ∧ (np.2 = true → getattr a "name" = Ok (VStr np.1)).

(** Two listings that differ in [photos] at most. *)
Definition same_but_photos (listing listing' : value) : Prop :=
  ∀ attr, attr ≠ "photos" → getattr listing' attr = getattr listing attr.

(** The moves of worker [i], one constructor per branch of [step]. *)
Inductive moves (W : world) (i : nat) (s : pool) : pool → Prop :=
| moves_empty :
    workers s !! i = Some Idle →
    queue s = [] →
    moves W i s (Pool [] (<[i := Exited None]> (workers s))
                   (store s) (console s) (dequeued s))
| moves_get url rest :
    workers s !! i = Some Idle →
    queue s = url :: rest →
    moves W i s (Pool rest (<[i := Busy url]> (workers s))
                   (store s) (console s) (dequeued s ++ [url]))
| moves_stored url inserted :
    workers s !! i = Some (Busy url) →
    res (scrape W url) = Ok inserted →
    moves W i s (Pool (queue s) (<[i := Idle]> (workers s))
                   (store s ++ [inserted])
                   (console s ++ out (scrape W url)) (dequeued s))
| moves_raised url e :
    workers s !! i = Some (Busy url) →
    res (scrape W url) = Raise e →
    moves W i s (Pool (queue s) (<[i := Exited (Some e)]> (workers s))
                   (store s)
                   (console s ++ out (scrape W url) ++ excepthook e)
                   (dequeued s)).

(** A bound on the moves that are left: two for every queued URL (it
    is dequeued, then processed), and for every worker those that lead
    it out of [run] when it gets no further URL. *)
Definition weight (w : worker) : nat :=
  match w with
  | Idle => 1
  | Busy _ => 2
  | Exited _ => 0
  end.

Definition fuel (s : pool) : nat :=
  (2 * length (queue s) + sum_list (weight <$> workers s))%nat.

Definition busy (w : worker) : bool :=
  match w with Busy _ => true | _ => false end.

(** The number of connections [run] settles on. *)
Definition n_conn (conn : Z) (q : list string) : Z :=
  Z.min conn (Z.of_nat (length q)).

(** Number of workers that hold a URL they have not finished. *)
Definition in_flight (ws : list worker) : nat :=
  sum_list ((λ w, if busy w then 1%nat else 0%nat) <$> ws).

(** A pool started on the URLs [q] and the table [db] in which no
    thread has met an exception: the URLs are those of [q], and every
    URL handed out is a new row or still with its worker. *)
Definition healthy (q : list string) (db : list row) (s : pool) : Prop :=
  dequeued s ++ queue s = q
  ∧ (∀ i url, workers s !! i = Some (Busy url) → url ∈ q)
  ∧ (∀ i e, workers s !! i ≠ Some (Exited (Some e)))
  ∧ (length (store s) + in_flight (workers s)
     = length db + length (dequeued s))%nat.

(** The lines [__process_input] enqueues, once stripped. *)
Definition keep (url : string) : bool :=
  match url with
  | EmptyString => false
  | String c _ => negb (Ascii.eqb c "#")
  end.

(** The URL a worker holds. *)
Definition held (w : worker) : list string :=
  match w with
  | Busy url => [url]
  | _ => []
  end.

(** Number of workers that an exception took out of [run]. *)
Definition failed (ws : list worker) : nat :=
  sum_list ((λ w, match w with Exited (Some _) => 1%nat | _ => 0%nat end) <$> ws).

(** The attributes of the listing that [__store_db] reads. *)
Definition required_fields : list string :=
  ["listing_amenities"; "name"; "market"; "review_details_interface";
   "room_and_property_type"; "bed_label"; "bathroom_label"; "guest_label";
   "price_formatted_for_embed"; "photos"; "description"].

(** ** Proof steps *)

(** Case analysis on the first call of a chain of [≫=] over [result]. *)
Ltac first_call t :=
  lazymatch t with
  | mbind _ ?m => first_call m
  | _ => t
  end.

Ltac step_goal :=
  lazymatch goal with
  | |- ∃ e, mbind ?f ?m0 = Raise e =>
      let m := first_call m0 in
      destruct m eqn:?; simpl; [|by eexists]
  | |- mbind ?f ?m0 = Raise _ =>
      let m := first_call m0 in
      destruct m eqn:?; simpl; [|discriminate]
  end.

Ltac step_hyp H :=
  lazymatch type of H with
  | mbind ?f ?m0 = Ok _ =>
      let m := first_call m0 in
      destruct m eqn:?; simpl in H; [|discriminate H]
  end.

Ltac same_attrs H :=
  rewrite ?(H "listing_amenities"), ?(H "name"), ?(H "market"),
    ?(H "review_details_interface"), ?(H "room_and_property_type"),
    ?(H "bed_label"), ?(H "bathroom_label"), ?(H "guest_label"),
    ?(H "price_formatted_for_embed"), ?(H "description") by done.

(** * Properties *)

(** ** Strings *)

Section Strings.

Lemma substring_0_length (p rest : string) :
  String.substring 0 (String.length p) (p +:+ rest) = p.
Proof.
  induction p as [|c p IH]; simpl.
  - by destruct rest.
  - by rewrite IH.
Qed.

Lemma string_length_app (a b : string) :
  String.length (a +:+ b) = (String.length a + String.length b)%nat.
Proof. induction a as [|c a IH]; simpl; [done | by rewrite IH]. Qed.

(** Cutting [k] characters off the front leaves the rest behind. *)
Lemma substring_0_prefix (k : nat) (s : string) :
  (k ≤ String.length s)%nat →
  ∃ post, s = String.substring 0 k s +:+ post
          ∧ String.length post = (String.length s - k)%nat.
Proof.
  revert s; induction k as [|k IH]; intros s Hk.
  - exists s. split; [by destruct s | lia].
  - destruct s as [|c s]; simpl in *; [lia|].
    destruct (IH s) as (post & Hs & Hlen); [lia|].
    exists post. split; [|done].
    change (String c s = String c (String.substring 0 k s +:+ post)).
    by rewrite <- Hs.
Qed.

Lemma slice_4_3_substring (text : string) :
  (7 ≤ String.length text)%nat →
  slice text 4 (-3) = String.substring 4 (String.length text - 7) text.
Proof.
  intros Hlen. unfold slice, clamp.
  change (4 <? 0) with false. change (-3 <? 0) with true. cbv iota.
  rewrite Z.min_l, Z.max_l by lia. f_equal; lia.
Qed.

Lemma slice_wrapped (payload : string) :
  slice ("<!--" +:+ payload +:+ "-->") 4 (-3) = payload.
Proof.
  rewrite slice_4_3_substring; rewrite !string_length_app; simpl String.length; [|lia].
  replace (4 + (String.length payload + 3) - 7)%nat
    with (String.length payload) by lia.
  apply substring_0_length.
Qed.

Lemma slice_4_3 (text : string) :
  (7 ≤ String.length text)%nat →
  ∃ pre post, text = pre +:+ slice text 4 (-3) +:+ post
              ∧ String.length pre = 4%nat ∧ String.length post = 3%nat.
Proof.
  intros Hlen. rewrite slice_4_3_substring by done.
  destruct text as [|a [|b [|c [|d rest]]]]; simpl in Hlen; try lia.
  destruct (substring_0_prefix (String.length rest - 3) rest)
    as (post & Hrest & Hpost); [lia|].
  exists (String a (String b (String c (String d EmptyString)))), post.
  split; [|split; [done | lia]].
  simpl String.length.
  replace (S (S (S (S (String.length rest)))) - 7)%nat
    with (String.length rest - 3)%nat by lia.
  change (String a (String b (String c (String d rest))) =
          String a (String b (String c (String d
            (String.substring 0 (String.length rest - 3) rest +:+ post))))).
  by rewrite <- Hrest.
Qed.

End Strings.

(** ** Extraction of the embedded payload *)

Section Extraction.
Context (W : world).

Lemma get_full_site_json_third content items text :
  json_scripts W content = Ok items →
  items !! 2%nat = Some (Some text) →
  Scraper.get_full_site_json W content =
    IO [] (match json_loads W (slice text 4 (-3)) with
           | Some v => Ok v
           | None => Raise ValueError
           end).
Proof.
  intros Hitems Hthird. unfold Scraper.get_full_site_json.
  rewrite Hitems. unfold mbind, io_bind, lift, try_except; simpl.
  unfold Scraper.third_payload. rewrite Hthird.
  by destruct (json_loads W _).
Qed.

(** C5. For a page whose third [application/json] script element has a
    text, extraction decodes that text without its first 4 and last 3
    characters: the text is those 4 characters, the decoded slice and
    those 3 characters. When the text is a payload between the markers
    [<!--] and [-->], the result is the decoded payload. *)
Theorem extraction_unwraps_third_script content items text :
  json_scripts W content = Ok items →
  items !! 2%nat = Some (Some text) →
  Scraper.get_full_site_json W content =
    IO [] (match json_loads W (slice text 4 (-3)) with
           | Some v => Ok v
           | None => Raise ValueError
           end)
  ∧ ((7 ≤ String.length text)%nat →
     ∃ pre post, text = pre +:+ slice text 4 (-3) +:+ post
                 ∧ String.length pre = 4%nat ∧ String.length post = 3%nat)
  ∧ (∀ payload v,
       text = "<!--" +:+ payload +:+ "-->" →
       json_loads W payload = Some v →
       Scraper.get_full_site_json W content = IO [] (Ok v)).
Proof.
  intros Hitems Hthird. split; [|split].
  - by apply get_full_site_json_third with items.
  - apply slice_4_3.
  - intros payload v -> Hv.
    rewrite (get_full_site_json_third _ _ _ Hitems Hthird).
    by rewrite slice_wrapped, Hv.
Qed.

End Extraction.

Lemma extraction_unwraps_third_script_witness :
  Scraper.get_full_site_json Sample.earth "http://bnb/1" =
    IO [] (Ok (Sample.site Sample.listing)).
Proof.
  destruct (extraction_unwraps_third_script Sample.earth "http://bnb/1"
              [Some "<!--{}-->"; None; Some "<!--http://bnb/1-->"]
              "<!--http://bnb/1-->" eq_refl eq_refl) as (_ & _ & H).
  exact (H "http://bnb/1" (Sample.site Sample.listing) eq_refl eq_refl).
Defined.

(** ** Rows written by [__store_db] *)

Section StoreDb.
Context (W : world).

Lemma as_strs_VStr (names : list string) : as_strs (VStr <$> names) = Ok names.
Proof. induction names as [|n names IH]; csimpl; [done | by rewrite IH]. Qed.

Lemma join_VStr (sep : string) (names : list string) :
  join sep (VStr <$> names) = Ok (String.concat sep names).
Proof. unfold join. by rewrite as_strs_VStr. Qed.

Lemma present_amenities_filter items (l : list (string * bool)) acc :
  Forall2 amenity_of items l →
  present_amenities items acc = Ok (acc ++ (VStr <$> (List.filter snd l).*1)).
Proof.
  intros H; revert acc.
  induction H as [|a [n p] items l [Hp Hn] _ IH]; intros acc; csimpl.
  - by rewrite app_nil_r.
  - simpl in Hp, Hn. rewrite Hp; csimpl. destruct p; csimpl.
    + rewrite Hn by done. csimpl. rewrite IH. by rewrite <- app_assoc.
    + apply IH.
Qed.

(** C6. When the payload's amenity list holds objects with a name and
    a boolean presence flag, the list built by [__store_db] is the names
    of the amenities whose flag is true, in the payload's order, and the
    [amenities] column of the inserted row is that list joined with
    commas. For Wifi (present) and Pool (absent) the list is [Wifi]. *)
Theorem amenities_are_the_present_names url listing items (l : list (string * bool)) :
  getattr listing "listing_amenities" = Ok (VList items) →
  Forall2 amenity_of items l →
  present_amenities items [] = Ok (VStr <$> (List.filter snd l).*1)
  ∧ (∀ inserted,
       store_db W url listing = Ok inserted →
       col_amenities inserted = SqlText (String.concat "," (List.filter snd l).*1))
  ∧ present_amenities [Sample.amenity "Wifi" true; Sample.amenity "Pool" false] []
    = Ok [VStr "Wifi"].
Proof.
  intros Hlist Hitems.
  pose proof (present_amenities_filter items l [] Hitems) as Hpresent.
  simpl in Hpresent. split; [done | split; [|done]].
  intros inserted Hstore. unfold store_db in Hstore.
  rewrite Hlist in Hstore; simpl in Hstore.
  rewrite Hpresent in Hstore; simpl in Hstore.
  rewrite join_VStr in Hstore.
  repeat step_hyp Hstore.
  by inversion Hstore.
Qed.

End StoreDb.

Lemma amenities_are_the_present_names_witness :
  col_amenities <$> (match store_db Sample.earth "http://bnb/1" Sample.listing with
                     | Ok inserted => Some inserted
                     | Raise _ => None
                     end) = Some (SqlText "Wifi").
Proof.
  destruct (amenities_are_the_present_names Sample.earth "http://bnb/1"
              Sample.listing
              [Sample.amenity "Wifi" true; Sample.amenity "Pool" false]
              [("Wifi", true); ("Pool", false)] eq_refl) as (_ & H & _).
  { repeat constructor. }
  destruct (store_db Sample.earth "http://bnb/1" Sample.listing) as [inserted|e] eqn:E.
  - simpl. f_equal. exact (H inserted eq_refl).
  - discriminate E.
Defined.

(** ** The cover photo *)

Section CoverPhoto.
Context (W : world).

(** The first piece of [s.split('?')] is [s] up to its first question
    mark: it holds none, and what follows it in [s] is nothing or
    starts with one. *)
Lemma split_first_piece (s : string) :
  ∃ before pieces tail,
    split "?" s = before :: pieces
    ∧ s = before +:+ tail
    ∧ (tail = EmptyString ∨ ∃ t, tail = String "?" t)
    ∧ (∀ a b, before ≠ a +:+ String "?" b).
Proof.
  induction s as [|c s (before & pieces & tail & Hsplit & Hs & Htail & Hnone)].
  - exists EmptyString, [], EmptyString. repeat split; [by left|].
    intros [|x a] b; discriminate.
  - simpl. destruct (Ascii.eqb_spec c "?") as [->|Hc].
    + exists EmptyString, (split "?" s), (String "?" s).
      repeat split; [right; by eexists|]. intros [|x a] b; discriminate.
    + rewrite Hsplit. exists (String c before), pieces, tail.
      repeat split; [by rewrite Hs at 1 | done |].
      intros [|x a] b Heq; simpl in Heq; inversion Heq; subst; [done|].
      by eapply Hnone.
Qed.

Lemma store_db_no_photo url listing :
  getattr listing "photos" = Ok (VList []) →
  ∃ e, store_db W url listing = Raise e.
Proof.
  intros Hphotos. unfold store_db. rewrite Hphotos. simpl.
  repeat step_goal. by eexists.
Qed.

Lemma store_db_first_photo_only url listing listing' photo rest rest' :
  same_but_photos listing listing' →
  getattr listing "photos" = Ok (VList (photo :: rest)) →
  getattr listing' "photos" = Ok (VList (photo :: rest')) →
  store_db W url listing' = store_db W url listing.
Proof.
  intros Hsame Hphotos Hphotos'. unfold store_db.
  same_attrs Hsame. by rewrite Hphotos, Hphotos'.
Qed.

Lemma store_db_photo_url url listing photo rest cover inserted :
  getattr listing "photos" = Ok (VList (photo :: rest)) →
  getattr photo "large_cover" = Ok (VStr cover) →
  store_db W url listing = Ok inserted →
  ∃ before tail,
    col_photo_url inserted = SqlText before
    ∧ cover = before +:+ tail
    ∧ (tail = EmptyString ∨ ∃ t, tail = String "?" t)
    ∧ (∀ a b, before ≠ a +:+ String "?" b).
Proof.
  intros Hphotos Hcover Hstore.
  destruct (split_first_piece cover)
    as (before & pieces & tail & Hsplit & Hs & Htail & Hnone).
  exists before, tail. split; [|done].
  unfold store_db in Hstore. rewrite Hphotos in Hstore.
  unfold cover_url in Hstore. simpl in Hstore.
  rewrite Hcover in Hstore. simpl in Hstore.
  rewrite Hsplit in Hstore. simpl in Hstore.
  repeat step_hyp Hstore.
  by inversion Hstore.
Qed.

Lemma store_db_photos_removed url listing listing' inserted :
  store_db W url listing = Ok inserted →
  same_but_photos listing listing' →
  getattr listing' "photos" = Ok (VList []) →
  store_db W url listing' = Raise IndexError.
Proof.
  intros Hstore Hsame Hphotos'. unfold store_db in *.
  same_attrs Hsame. rewrite Hphotos'. simpl.
  repeat step_hyp Hstore. simpl.
  repeat match goal with
         | H : ?m = Ok _ |- context [?m] => rewrite H; simpl
         end.
  done.
Qed.

(** C10. [__store_db] reads [photos[0]] and nothing else of [photos]:
    with an empty [photos] it raises and inserts nothing, whatever the
    other fields are, and it raises [IndexError] for a listing that is
    stored once it has a photo; two listings that differ only in the
    photos after the first get the same outcome; the [photo_url] column
    is the first photo's cover address up to its first question mark. *)
Theorem store_db_needs_first_photo url :
  (∀ listing,
     getattr listing "photos" = Ok (VList []) →
     ∃ e, store_db W url listing = Raise e)
  ∧ (∀ listing listing' inserted,
       store_db W url listing = Ok inserted →
       same_but_photos listing listing' →
       getattr listing' "photos" = Ok (VList []) →
       store_db W url listing' = Raise IndexError)
  ∧ (∀ listing listing' photo rest rest',
       same_but_photos listing listing' →
       getattr listing "photos" = Ok (VList (photo :: rest)) →
       getattr listing' "photos" = Ok (VList (photo :: rest')) →
       store_db W url listing' = store_db W url listing)
  ∧ (∀ listing photo rest cover inserted,
       getattr listing "photos" = Ok (VList (photo :: rest)) →
       getattr photo "large_cover" = Ok (VStr cover) →
       store_db W url listing = Ok inserted →
       ∃ before tail,
         col_photo_url inserted = SqlText before
         ∧ cover = before +:+ tail
         ∧ (tail = EmptyString ∨ ∃ t, tail = String "?" t)
         ∧ (∀ a b, before ≠ a +:+ String "?" b)).
Proof.
  split; [|split; [|split]].
  - apply store_db_no_photo.
  - apply store_db_photos_removed.
  - apply store_db_first_photo_only.
  - apply store_db_photo_url.
Qed.

End CoverPhoto.

Lemma store_db_needs_first_photo_witness :
  (∃ e, store_db Sample.earth "http://bnb/nophoto"
          (Sample.listing_with [("name", VStr "Loft")] []) = Raise e)
  ∧ store_db Sample.earth "http://bnb/nophoto"
      (Sample.listing_with [("name", VStr "Loft")] []) = Raise IndexError.
Proof.
  destruct (store_db_needs_first_photo Sample.earth "http://bnb/nophoto")
    as (Hnone & Hremoved & _ & _).
  split.
  - apply Hnone. reflexivity.
  - destruct (store_db Sample.earth "http://bnb/nophoto" Sample.listing)
      as [inserted|e] eqn:E; [|discriminate E].
    apply (Hremoved Sample.listing _ inserted E); [|reflexivity].
    intros attr Hattr. unfold Sample.listing, Sample.listing_with, getattr.
    simpl.
    repeat match goal with
           | |- context [String.eqb attr ?k] =>
               destruct (String.eqb_spec attr k) as [->|_]; [done|]
           end.
    done.
Defined.

(** ** The worker pool *)

Section Pool.
Context (W : world).

Lemma step_moves i s s' : step W i s = Some s' ↔ moves W i s s'.
Proof.
  unfold step. split.
  - intros H. destruct (workers s !! i) as [[|url|by_exn]|] eqn:Hw; try done.
    + destruct (queue s) as [|url rest] eqn:Hq; inversion H; subst.
      * by apply moves_empty.
      * by apply moves_get.
    + destruct (res (scrape W url)) as [inserted|e] eqn:Hr; inversion H; subst.
      * by apply moves_stored.
      * by apply moves_raised.
  - intros [Hw Hq|url rest Hw Hq|url inserted Hw Hr|url e Hw Hr];
      rewrite Hw; simpl; by rewrite ?Hq, ?Hr.
Qed.

Lemma run_schedule_app sched sched' s :
  run_schedule W (sched ++ sched') s =
    run_schedule W sched s ≫= run_schedule W sched'.
Proof.
  revert s; induction sched as [|i sched IH]; intros s; simpl; [done|].
  destruct (step W i s); simpl; [apply IH | done].
Qed.

Lemma steps_refl s : steps W s s.
Proof. by exists []. Qed.

Lemma steps_trans s1 s2 s3 : steps W s1 s2 → steps W s2 s3 → steps W s1 s3.
Proof.
  intros [sched1 H1] [sched2 H2]. exists (sched1 ++ sched2).
  rewrite run_schedule_app, H1. done.
Qed.

(** A property kept by every move holds all along a schedule. *)
Lemma steps_ind (P : pool → Prop) :
  (∀ i s s', P s → moves W i s s' → P s') →
  ∀ s s', P s → steps W s s' → P s'.
Proof.
  intros Hstep s s' Hs [sched Hrun]. revert s Hs Hrun.
  induction sched as [|i sched IH]; intros s Hs Hrun; simpl in Hrun.
  - by inversion Hrun; subst.
  - destruct (step W i s) as [s1|] eqn:H1; [|done].
    apply (IH s1); [|done]. eapply Hstep; [done|]. by apply step_moves.
Qed.

(** *** Termination of the threads *)

Lemma sum_insert (f : worker → nat) (ws : list worker) i w w' :
  ws !! i = Some w →
  (sum_list (f <$> <[i := w']> ws) + f w = sum_list (f <$> ws) + f w')%nat.
Proof.
  revert i; induction ws as [|x ws IH]; intros [|i] Hi; csimpl in *; try done.
  - inversion Hi; subst. lia.
  - specialize (IH i Hi). lia.
Qed.

Lemma moves_fuel i s s' : moves W i s s' → (fuel s' < fuel s)%nat.
Proof.
  intros [Hw Hq|url rest Hw Hq|url inserted Hw Hr|url e Hw Hr];
    unfold fuel; cbn [queue workers]; rewrite ?Hq; cbn [length];
    match goal with
    | |- context [<[i := ?w']> (workers s)] =>
        pose proof (sum_insert weight (workers s) i _ w' Hw) as Hsum
    end;
    cbn [weight] in Hsum; lia.
Qed.

Lemma run_schedule_fuel sched s s' :
  run_schedule W sched s = Some s' → (length sched + fuel s' ≤ fuel s)%nat.
Proof.
  revert s; induction sched as [|i sched IH]; intros s Hrun; simpl in Hrun.
  - inversion Hrun; subst. simpl. lia.
  - destruct (step W i s) as [s1|] eqn:H1; [|done].
    apply step_moves, moves_fuel in H1. specialize (IH s1 Hrun). simpl. lia.
Qed.

Lemma joined_lookup s :
  joined s = true ↔ ∀ i w, workers s !! i = Some w → exited w = true.
Proof.
  unfold joined. rewrite forallb_forall. split.
  - intros H i w Hi. apply H, list_elem_of_In. by eapply list_elem_of_lookup_2.
  - intros H w Hin. apply list_elem_of_In, list_elem_of_lookup in Hin as [i Hi].
    by eapply H.
Qed.

Lemma joined_no_step s : joined s = true ↔ ∀ i, step W i s = None.
Proof.
  rewrite joined_lookup. split.
  - intros H i. unfold step.
    destruct (workers s !! i) as [w|] eqn:Hw; [|done].
    specialize (H i w Hw). by destruct w.
  - intros H i w Hw. specialize (H i). unfold step in H. rewrite Hw in H.
    destruct w as [|url|by_exn]; [| |done].
    + by destruct (queue s).
    + by destruct (res (scrape W url)).
Qed.

Lemma not_joined_step s :
  joined s = false → ∃ i s', step W i s = Some s'.
Proof.
  unfold joined. intros H.
  assert (∃ i w, workers s !! i = Some w ∧ exited w = false) as (i & w & Hw & He).
  { induction (workers s) as [|x ws IH]; simpl in H; [done|].
    destruct (exited x) eqn:Hx; simpl in H.
    - destruct (IH H) as (i & w & Hi & He). by exists (S i), w.
    - by exists 0%nat, x. }
  exists i. unfold step. rewrite Hw.
  destruct w as [|url|by_exn]; [| |done].
  - destruct (queue s); by eexists.
  - destruct (res (scrape W url)); by eexists.
Qed.

(** From every state the threads can run until all have ended. *)
Lemma steps_to_joined s : ∃ sched s', run_schedule W sched s = Some s' ∧ joined s' = true.
Proof.
  remember (fuel s) as n eqn:Hn. revert s Hn.
  induction n as [n IH] using lt_wf_ind; intros s ->.
  destruct (joined s) eqn:Hj.
  - by exists [], s.
  - destruct (not_joined_step s Hj) as (i & s1 & H1).
    pose proof H1 as Hfuel. apply step_moves, moves_fuel in Hfuel.
    destruct (IH (fuel s1) Hfuel s1 eq_refl) as (sched & s' & Hrun & Hj').
    exists (i :: sched), s'. simpl. by rewrite H1.
Qed.

(** *** What the threads keep true *)

Lemma lookup_insert_cases (ws : list worker) i j w w' x :
  ws !! i = Some w →
  <[i := w']> ws !! j = Some x →
  (j = i ∧ x = w') ∨ (j ≠ i ∧ ws !! j = Some x).
Proof.
  intros Hi Hj. destruct (decide (j = i)) as [->|Hne].
  - left. rewrite list_lookup_insert_eq in Hj by by eapply lookup_lt_Some.
    by inversion Hj.
  - right. by rewrite list_lookup_insert_ne in Hj.
Qed.

(** The URLs handed out and the URLs still queued are the input. *)
Lemma moves_accounted q i s s' :
  dequeued s ++ queue s = q → moves W i s s' → dequeued s' ++ queue s' = q.
Proof.
  intros Hq [Hw Hempty|url rest Hw Hget|url inserted Hw Hr|url e Hw Hr];
    simpl; rewrite ?Hempty, ?Hget in *; try done.
  by rewrite <- app_assoc.
Qed.

(** A worker that left by [Queue.Empty] saw the queue empty, and
    nothing is put back. *)
Lemma moves_empty_seen i s s' :
  ((∃ j, workers s !! j = Some (Exited None)) → queue s = []) →
  moves W i s s' →
  (∃ j, workers s' !! j = Some (Exited None)) → queue s' = [].
Proof.
  intros Hinv [Hw Hempty|url rest Hw Hget|url inserted Hw Hr|url e Hw Hr]
    [j Hj]; simpl in *; try done;
    destruct (lookup_insert_cases _ _ _ _ _ _ Hw Hj) as [[_ ?]|[_ Hj']];
    try done.
  all: try (apply Hinv; by exists j).
  rewrite Hget in Hinv. discriminate Hinv. by exists j.
Qed.

Lemma moves_workers_length i s s' :
  moves W i s s' → length (workers s') = length (workers s).
Proof. intros []; simpl; by rewrite length_insert. Qed.

(** A thread that has ended stays ended. *)
Lemma moves_exited i j s s' x :
  workers s !! j = Some (Exited x) →
  moves W i s s' →
  workers s' !! j = Some (Exited x).
Proof.
  intros Hj [Hw Hempty|url rest Hw Hget|url inserted Hw Hr|url e Hw Hr];
    simpl; (rewrite list_lookup_insert_ne; [done|]); intros ->; congruence.
Qed.

Lemma steps_exited j s s' x :
  workers s !! j = Some (Exited x) → steps W s s' →
  workers s' !! j = Some (Exited x).
Proof.
  intros Hj. apply (steps_ind (λ s, workers s !! j = Some (Exited x))); [|done].
  intros i s1 s2 H1 Hmove. by eapply moves_exited.
Qed.

Lemma joined_drained_or_raised s :
  workers s ≠ [] →
  ((∃ j, workers s !! j = Some (Exited None)) → queue s = []) →
  joined s = true →
  queue s = [] ∨ ∃ i e, workers s !! i = Some (Exited (Some e)).
Proof.
  intros Hne Hinv Hj. destruct (workers s) as [|w ws] eqn:Hws; [done|].
  pose proof (proj1 (joined_lookup s) Hj 0%nat w) as Hw.
  rewrite Hws in Hw. specialize (Hw eq_refl).
  destruct w as [| |[e|]]; try done.
  - right. exists 0%nat, e. done.
  - left. apply Hinv. exists 0%nat. done.
Qed.

(** *** When no page fails *)

Section NoFailure.
Context (q : list string) (db : list row).
Hypothesis scrape_ok : ∀ url, url ∈ q → ∃ inserted, res (scrape W url) = Ok inserted.

Lemma moves_healthy i s s' : healthy q db s → moves W i s s' → healthy q db s'.
Proof.
  intros (Hq & Hbusy & Hraised & Hcount) Hmove.
  split; [by eapply moves_accounted|].
  destruct Hmove as [Hw Hempty|url rest Hw Hget|url inserted Hw Hr|url e Hw Hr];
    simpl.
  - split; [|split].
    + intros j u Hj. destruct (lookup_insert_cases _ _ _ _ _ _ Hw Hj) as [[_ ?]|[_ Hj']];
        [done | by eapply Hbusy].
    + intros j e Hj. destruct (lookup_insert_cases _ _ _ _ _ _ Hw Hj) as [[_ ?]|[_ Hj']];
        [done | by eapply Hraised].
    + pose proof (sum_insert (λ w, if busy w then 1%nat else 0%nat)
                    (workers s) i _ (Exited None) Hw) as Hsum.
      unfold in_flight in *. simpl in Hsum. lia.
  - split; [|split].
    + intros j u Hj. destruct (lookup_insert_cases _ _ _ _ _ _ Hw Hj) as [[_ Hu]|[_ Hj']];
        [|by eapply Hbusy].
      inversion Hu; subst. rewrite Hget. set_solver.
    + intros j e Hj. destruct (lookup_insert_cases _ _ _ _ _ _ Hw Hj) as [[_ ?]|[_ Hj']];
        [done | by eapply Hraised].
    + pose proof (sum_insert (λ w, if busy w then 1%nat else 0%nat)
                    (workers s) i _ (Busy url) Hw) as Hsum.
      unfold in_flight in *. simpl in Hsum. rewrite length_app. simpl. lia.
  - split; [|split].
    + intros j u Hj. destruct (lookup_insert_cases _ _ _ _ _ _ Hw Hj) as [[_ ?]|[_ Hj']];
        [done | by eapply Hbusy].
    + intros j e Hj. destruct (lookup_insert_cases _ _ _ _ _ _ Hw Hj) as [[_ ?]|[_ Hj']];
        [done | by eapply Hraised].
    + pose proof (sum_insert (λ w, if busy w then 1%nat else 0%nat)
                    (workers s) i _ Idle Hw) as Hsum.
      unfold in_flight in *. simpl in Hsum. rewrite length_app. simpl. lia.
  - destruct (scrape_ok url (Hbusy i url Hw)) as [inserted Hok]. congruence.
Qed.

Lemma joined_in_flight s : joined s = true → in_flight (workers s) = 0%nat.
Proof.
  unfold joined, in_flight. induction (workers s) as [|w ws IH]; [done|].
  csimpl. intros [Hw Hws]%andb_prop. rewrite (IH Hws). by destruct w.
Qed.

Lemma healthy_joined s :
  workers s ≠ [] →
  ((∃ j, workers s !! j = Some (Exited None)) → queue s = []) →
  healthy q db s → joined s = true →
  queue s = [] ∧ dequeued s = q
  ∧ length (store s) = (length db + length q)%nat.
Proof.
  intros Hne Hinv (Hq & Hbusy & Hraised & Hcount) Hj.
  destruct (joined_drained_or_raised s Hne Hinv Hj) as [Hempty|(i & e & Hi)];
    [|by destruct (Hraised i e)].
  rewrite Hempty, app_nil_r in Hq. rewrite (joined_in_flight s Hj) in Hcount.
  subst q. split; [done|split; [done|lia]].
Qed.

End NoFailure.

End Pool.

(** ** Starting the threads *)

Section Run.

Lemma run_nonempty conn db q :
  q ≠ [] →
  run conn db q =
    IO ((if (1 <=? n_conn conn q) && (n_conn conn q <=? 10000) then []
         else [Stderr "invalid number of concurrent connections"])
        ++ [Stdout "Scraping begins..."])
       (Ok (Pool q (replicate (Z.to_nat (n_conn conn q)) Idle) db [] [])).
Proof.
  intros Hq. unfold run, n_conn.
  rewrite bool_decide_eq_false_2 by done. simpl.
  by destruct ((1 <=? _) && (_ <=? 10000)).
Qed.

Lemma run_empty conn db :
  run conn db [] = IO [Stderr "No URLs given"] (Raise (SystemExit None)).
Proof. reflexivity. Qed.

(** The message about the number of connections is written exactly
    when the clamped number is outside of 1..10000; [run] goes on to
    start the threads in either case. *)
Lemma run_reports_invalid_concurrency conn db q :
  q ≠ [] →
  (Stderr "invalid number of concurrent connections" ∈ out (run conn db q)
   ↔ ¬ (1 ≤ n_conn conn q ≤ 10000))
  ∧ ∃ p, res (run conn db q) = Ok p.
Proof.
  intros Hq. rewrite run_nonempty by done. simpl. split; [|by eexists].
  destruct ((1 <=? n_conn conn q) && (n_conn conn q <=? 10000)) eqn:Hrange.
  - apply andb_prop in Hrange as [H1 H2]. simpl.
    rewrite list_elem_of_singleton. split; [done | lia].
  - simpl. split; [|set_solver]. intros _ [H1 H2].
    apply Z.leb_le in H1, H2. by rewrite H1, H2 in Hrange.
Qed.

(** C3, amended. For a non-empty queue [run] takes the smaller of the
    requested number and the number of URLs, and starts that many
    threads on the one queue when the number is not negative and none
    when it is: [max 0 (min conn n)] threads in all. *)
Theorem run_spawns_clamped_workers conn db q :
  q ≠ [] →
  ∃ p, res (run conn db q) = Ok p
       ∧ queue p = q
       ∧ workers p = replicate (Z.to_nat (n_conn conn q)) Idle
       ∧ Z.of_nat (length (workers p)) = Z.max 0 (n_conn conn q)
       ∧ (0 ≤ conn → Z.of_nat (length (workers p)) = n_conn conn q)
       ∧ (conn < 0 → workers p = []).
Proof.
  intros Hq. rewrite run_nonempty by done. eexists. split; [done|]. simpl.
  rewrite length_replicate. unfold n_conn.
  repeat split; try lia.
  intros Hneg. by replace (Z.to_nat _) with 0%nat by lia.
Qed.

Lemma run_spawns_clamped_workers_witness :
  ∃ p, res (run 10 [] ["http://bnb/1"; "http://bnb/2"; "http://bnb/3"]) = Ok p
       ∧ workers p = [Idle; Idle; Idle].
Proof.
  destruct (run_spawns_clamped_workers 10 []
              ["http://bnb/1"; "http://bnb/2"; "http://bnb/3"])
    as (p & Hp & _ & Hw & _); [done|].
  exists p. by split.
Defined.

(** C3 as stated fails for a negative request: the clamped number is
    -1 and no thread is started. *)
Lemma run_negative_request_spawns_none :
  ∃ p, res (run (-1) [] ["http://bnb/1"]) = Ok p
       ∧ n_conn (-1) ["http://bnb/1"] = -1
       ∧ Z.of_nat (length (workers p)) = 0.
Proof. by eexists. Qed.

(** C4, on the code. A clamped number outside of 1..10000 is reported
    and [run] carries on: with a request of 0 it starts no thread,
    returns and the process ends with status 0; with 10001 URLs and a
    request of 10001 it starts 10001 threads. *)
Theorem run_continues_after_invalid_concurrency :
  run 0 [] ["http://bnb/1"] =
    IO [Stderr "invalid number of concurrent connections";
        Stdout "Scraping begins..."]
       (Ok (Pool ["http://bnb/1"] [] [] [] []))
  ∧ exit_code Sample.earth 0 None "http://bnb/1" = 0
  ∧ ∃ p, run 10001 [] (replicate (Z.to_nat 10001) "http://bnb/1") =
           IO [Stderr "invalid number of concurrent connections";
               Stdout "Scraping begins..."] (Ok p)
         ∧ Z.of_nat (length (workers p)) = 10001.
Proof.
  split; [done|]. split; [done|].
  set (q := replicate (Z.to_nat 10001) "http://bnb/1").
  assert (length q = Z.to_nat 10001) as Hlen by apply length_replicate.
  assert (q ≠ []) as Hq.
  { intros Heq. rewrite Heq in Hlen. simpl in Hlen. lia. }
  assert (n_conn 10001 q = 10001) as Hn by (unfold n_conn; lia).
  rewrite run_nonempty, Hn by done. eexists. split; [reflexivity|].
  cbn [workers]. rewrite length_replicate. lia.
Qed.

(** C8, amended. With an empty queue [run] writes its message, starts
    no thread and leaves by a bare [sys.exit()]: the exit status is 0. *)
Theorem run_empty_queue_exits conn db :
  run conn db [] = IO [Stderr "No URLs given"] (Raise (SystemExit None))
  ∧ exit_status (terminate (res (run conn db []))) = 0
  ∧ (∀ W table file,
       res (process_input W file) = Ok [] →
       res (main W conn table file) = Raise (SystemExit None)
       ∧ exit_code W conn table file = 0).
Proof.
  split; [apply run_empty|]. split; [by rewrite run_empty|].
  intros W table file Hq.
  assert (res (main W conn table file) = Raise (SystemExit None)) as Hmain.
  { unfold main. unfold mbind at 1, io_bind. rewrite Hq.
    by rewrite run_empty. }
  split; [done|]. unfold exit_code. by rewrite Hmain.
Qed.

Lemma run_empty_queue_exits_witness :
  res (main Sample.earth 10 None "nothing") = Raise (SystemExit None)
  ∧ exit_code Sample.earth 10 None "nothing" = 0.
Proof.
  exact (proj2 (proj2 (run_empty_queue_exits 10 []))
           Sample.earth None "nothing" eq_refl).
Defined.

(** C8 as stated fails: the status of the empty-input exit is 0. *)
Lemma run_empty_queue_status_zero :
  exit_status (terminate (res (run 10 [] []))) = 0
  ∧ exit_code Sample.earth 10 None "nothing" = 0.
Proof. done. Qed.

End Run.

(** ** Reading the input *)

Section Input.
Context (W : world).

(** C9, amended. When opening the argument fails with
    [FileNotFoundError] and the URL validator rejects it, nothing is
    enqueued and [main] ends in the empty-input exit of [run]: no pool
    of threads exists and the table is not written to. *)
Theorem missing_file_invalid_url_no_work conn db file :
  open_file W file = Raise FileNotFoundError →
  validators_url W file = false →
  process_input W file = IO [Stdout "Processing urls..."] (Ok [])
  ∧ main W conn db file =
      IO [Stdout "Processing urls..."; Stderr "No URLs given"]
         (Raise (SystemExit None)).
Proof.
  intros Hopen Hurl.
  assert (process_input W file = IO [Stdout "Processing urls..."] (Ok [])) as Hq.
  { unfold process_input, try_except, lift. rewrite Hopen, Hurl. done. }
  split; [done|]. unfold main. by rewrite Hq.
Qed.

End Input.

Lemma missing_file_invalid_url_no_work_witness :
  main Sample.earth 10 None "nothing" =
    IO [Stdout "Processing urls..."; Stderr "No URLs given"]
       (Raise (SystemExit None)).
Proof.
  exact (proj2 (missing_file_invalid_url_no_work Sample.earth 10 None "nothing"
                  eq_refl eq_refl)).
Defined.

(** C9 as stated fails for an argument that cannot be opened for
    another reason, here a directory: the exception leaves
    [__process_input], no queue is built and [run] is not reached. *)
Lemma unopenable_directory_raises :
  open_file Sample.earth "/tmp" = Raise OSError
  ∧ validators_url Sample.earth "/tmp" = false
  ∧ process_input Sample.earth "/tmp" =
      IO [Stdout "Processing urls..."] (Raise OSError)
  ∧ main Sample.earth 10 None "/tmp" =
      IO [Stdout "Processing urls..."] (Raise OSError).
Proof. done. Qed.

(** ** Exceptions inside a worker thread *)

Section WorkerExceptions.
Context (W : world).

Lemma io_bind_lift_ok {A B} (a : A) (f : A → io B) : lift (Ok a) ≫= f = f a.
Proof. unfold mbind, io_bind, lift. simpl. by destruct (f a). Qed.

Lemma io_bind_raise {A B} (m : io A) (f : A → io B) o e :
  m = IO o (Raise e) → m ≫= f = IO o (Raise e).
Proof. by intros ->. Qed.

(** An exception of the extraction leaves [scrape] with what was
    written before it. *)
Lemma scrape_extraction_raises url content o e :
  requests_get W url = Ok content →
  Scraper.get_full_site_json W content = IO o (Raise e) →
  is_MissingSchema e = false →
  scrape W url = IO o (Raise e).
Proof.
  intros Hget Hjson Hcaught. unfold scrape. apply io_bind_raise.
  unfold Scraper.init. rewrite Hget, io_bind_lift_ok.
  assert (Scraper.set_listing W content = IO o (Raise e)) as ->.
  { unfold Scraper.set_listing, Scraper.get_listing_json.
    by do 2 apply io_bind_raise. }
  unfold try_except. simpl. by rewrite Hcaught.
Qed.

(** Fewer than three JSON script elements: the message goes to the
    error stream and [SystemExit] leaves [scrape]. *)
Lemma scrape_throttled url content items :
  requests_get W url = Ok content →
  json_scripts W content = Ok items →
  (length items < 3)%nat →
  scrape W url = IO [Stderr Scraper.throttling] (Raise (SystemExit None)).
Proof.
  intros Hget Hitems Hlen. apply scrape_extraction_raises with content; try done.
  unfold Scraper.get_full_site_json. rewrite Hitems, io_bind_lift_ok.
  unfold Scraper.third_payload. by rewrite (lookup_ge_None_2 items 2) by lia.
Qed.

(** A third element whose text does not decode: [ValueError]. *)
Lemma scrape_undecodable url content items text :
  requests_get W url = Ok content →
  json_scripts W content = Ok items →
  items !! 2%nat = Some (Some text) →
  json_loads W (slice text 4 (-3)) = None →
  scrape W url = IO [] (Raise ValueError).
Proof.
  intros Hget Hitems Hthird Hloads.
  apply scrape_extraction_raises with content; try done.
  by rewrite (get_full_site_json_third W _ _ _ Hitems Hthird), Hloads.
Qed.

(** A listing that lacks a field [__store_db] reads, here the first
    one: [AttributeError]. *)
Lemma store_db_field_missing url fields :
  assoc "listing_amenities" fields = None →
  store_db W url (VObj fields) = Raise (AttributeError "listing_amenities").
Proof. intros H. unfold store_db, getattr. by rewrite H. Qed.

(** A worker can move unless it has ended. *)
Lemma step_is_Some j s :
  is_Some (step W j s) ↔ ∃ w, workers s !! j = Some w ∧ exited w = false.
Proof.
  unfold step. destruct (workers s !! j) as [[|url|by_exn]|]; split.
  - by exists Idle.
  - intros _. by destruct (queue s).
  - by exists (Busy url).
  - intros _. by destruct (res (scrape W url)).
  - by intros [].
  - by intros (w & [= <-] & ?).
  - by intros [].
  - by intros (w & ? & ?).
Qed.

(** C7, amended. An exception that leaves [scrape], a content error
    like any other, skips the row of that URL and ends the worker
    thread it was raised in: that worker takes nothing more from the
    queue. The queue and the other workers are as before, so they can
    move exactly as they could. *)
Theorem exception_ends_its_worker_only s i url e :
  workers s !! i = Some (Busy url) →
  res (scrape W url) = Raise e →
  ∃ s', step W i s = Some s'
        ∧ store s' = store s
        ∧ queue s' = queue s
        ∧ dequeued s' = dequeued s
        ∧ workers s' !! i = Some (Exited (Some e))
        ∧ (∀ j, j ≠ i → workers s' !! j = workers s !! j)
        ∧ (∀ j, j ≠ i → is_Some (step W j s') ↔ is_Some (step W j s))
        ∧ (∀ s'', steps W s' s'' →
             workers s'' !! i = Some (Exited (Some e))
             ∧ step W i s'' = None).
Proof.
  intros Hw Hr. eexists. split.
  { apply step_moves. exact (moves_raised W i s url e Hw Hr). }
  cbn [store queue dequeued workers].
  assert (<[i := Exited (Some e)]> (workers s) !! i = Some (Exited (Some e)))
    as Hi by (apply list_lookup_insert_eq; by eapply lookup_lt_Some).
  assert (∀ j, j ≠ i →
            <[i := Exited (Some e)]> (workers s) !! j = workers s !! j) as Hj.
  { intros j Hne. apply list_lookup_insert_ne. congruence. }
  do 5 (split; [done|]). split.
  - intros j Hne. rewrite !step_is_Some. cbn [workers]. by rewrite Hj.
  - intros s'' Hsteps.
    assert (workers s'' !! i = Some (Exited (Some e))) as Hi''
      by (eapply steps_exited; [|exact Hsteps]; exact Hi).
    split; [done|]. unfold step. by rewrite Hi''.
Qed.

End WorkerExceptions.

Lemma exception_ends_its_worker_only_witness :
  ∃ s', step Sample.earth 0
          (Pool ["http://bnb/1"] [Busy "http://bnb/nameless"; Idle] [] []
             ["http://bnb/nameless"]) = Some s'
        ∧ store s' = []
        ∧ queue s' = ["http://bnb/1"]
        ∧ workers s' !! 0%nat = Some (Exited (Some (AttributeError "name"))).
Proof.
  destruct (exception_ends_its_worker_only Sample.earth
              (Pool ["http://bnb/1"] [Busy "http://bnb/nameless"; Idle] [] []
                 ["http://bnb/nameless"])
              0 "http://bnb/nameless" (AttributeError "name") eq_refl eq_refl)
    as (s' & Hstep & Hstore & Hqueue & _ & Hw & _).
  exists s'. done.
Defined.

(** C7 as stated fails: with one worker and a first page whose listing
    has no [name], the worker ends with [AttributeError] while the
    second URL is still queued, and it never moves again. *)
Lemma content_error_ends_the_worker :
  ∃ p s, res (run 1 [] ["http://bnb/nameless"; "http://bnb/1"]) = Ok p
         ∧ run_schedule Sample.earth [0; 0]%nat p = Some s
         ∧ workers s = [Exited (Some (AttributeError "name"))]
         ∧ queue s = ["http://bnb/1"]
         ∧ step Sample.earth 0 s = None.
Proof. do 2 eexists. repeat split. Qed.

(** C2, on the code. Two workers and three URLs, the first of which
    is throttled: the worker that meets it writes the message and
    ends, no row is lost, and the other worker takes the two remaining
    URLs and stores them; [run] then returns and the process ends with
    status 0. *)
Theorem throttled_worker_stops_alone :
  ∃ p s1 s2,
    res (main Sample.earth 2 None "mixed.txt") = Ok p
    ∧ queue p = ["http://bnb/throttled"; "http://bnb/1"; "http://bnb/2"]
    ∧ run_schedule Sample.earth [0; 0]%nat p = Some s1
    ∧ console s1 = [Stderr Scraper.throttling]
    ∧ workers s1 = [Exited (Some (SystemExit None)); Idle]
    ∧ dequeued s1 = ["http://bnb/throttled"]
    ∧ run_schedule Sample.earth [1; 1; 1; 1; 1]%nat s1 = Some s2
    ∧ dequeued s2 = ["http://bnb/throttled"; "http://bnb/1"; "http://bnb/2"]
    ∧ col_url <$> store s2 = [SqlText "http://bnb/1"; SqlText "http://bnb/2"]
    ∧ joined s2 = true
    ∧ exit_code Sample.earth 2 None "mixed.txt" = 0.
Proof.
  do 3 eexists.
  split; [vm_compute; reflexivity|]. split; [reflexivity|].
  split; [vm_compute; reflexivity|]. do 3 (split; [reflexivity|]).
  split; [vm_compute; reflexivity|]. do 3 (split; [reflexivity|]).
  vm_compute; reflexivity.
Qed.

(** ** Every URL is handed out once *)

Section Drain.
Context (W : world).

Lemma in_flight_replicate_Idle n : in_flight (replicate n Idle) = 0%nat.
Proof. unfold in_flight. induction n as [|n IH]; csimpl; [done | by rewrite IH]. Qed.

Lemma started_healthy q db n : healthy q db (Pool q (replicate n Idle) db [] []).
Proof.
  split; [done|]. cbn [workers store dequeued]. split; [|split].
  - by intros i url [? _]%lookup_replicate.
  - by intros i e [? _]%lookup_replicate.
  - rewrite in_flight_replicate_Idle. simpl. lia.
Qed.

(** C1, amended. From the pool that [run] starts on a non-empty queue
    with at least one connection, in every state the threads can reach:
    the URLs handed out so far and the URLs still queued are the input,
    in its order, so no URL is handed out twice or put back; [run]
    returns (every thread has ended) exactly when no thread can move,
    at most [fuel] moves are possible, and the threads can always run
    on until then; when every thread has ended the queue is empty or a
    thread ended by an exception; and when no URL raises, the end finds
    the queue empty, every URL handed out and one new row per URL. *)
Theorem pool_hands_out_each_url_once conn db q p :
  q ≠ [] →
  1 ≤ conn →
  res (run conn db q) = Ok p →
  ∀ s, steps W p s →
    dequeued s ++ queue s = q
    ∧ (joined s = true ↔ ∀ i, step W i s = None)
    ∧ (∀ sched s', run_schedule W sched s = Some s' →
         (length sched ≤ fuel s)%nat)
    ∧ (∃ sched s', run_schedule W sched s = Some s' ∧ joined s' = true)
    ∧ (joined s = true →
       queue s = [] ∨ ∃ i e, workers s !! i = Some (Exited (Some e)))
    ∧ ((∀ url, url ∈ q → ∃ inserted, res (scrape W url) = Ok inserted) →
       joined s = true →
       queue s = [] ∧ dequeued s = q
       ∧ length (store s) = (length db + length q)%nat).
Proof.
  intros Hq Hconn Hrun s Hsteps.
  rewrite run_nonempty in Hrun by done. simpl in Hrun.
  injection Hrun as <-.
  set (n := Z.to_nat (n_conn conn q)) in *.
  assert (n ≠ 0%nat) as Hn.
  { unfold n, n_conn. destruct q; [done|]. simpl length. lia. }
  set (P := λ s : pool,
         dequeued s ++ queue s = q
         ∧ ((∃ j, workers s !! j = Some (Exited None)) → queue s = [])
         ∧ length (workers s) = n
         ∧ ((∀ url, url ∈ q → ∃ inserted, res (scrape W url) = Ok inserted) →
            healthy q db s)).
  assert (P s) as (Hacc & Hseen & Hlen & Hhealthy).
  { revert Hsteps. apply (steps_ind W P); subst P; cbv beta.
    - intros i s1 s2 (H1 & H2 & H3 & H4) Hmove.
      split; [|split; [|split]].
      + by eapply moves_accounted.
      + by eapply moves_empty_seen.
      + by rewrite (moves_workers_length W i s1 s2).
      + intros Hok. eapply moves_healthy; [done| |done]. by apply H4.
    - cbn [queue workers dequeued]. split; [|split; [|split]].
      + done.
      + by intros [j [? _]%lookup_replicate].
      + apply length_replicate.
      + intros _. apply started_healthy. }
  assert (workers s ≠ []) as Hne.
  { intros Hnil. rewrite Hnil in Hlen. simpl in Hlen. lia. }
  split; [done|]. split; [apply joined_no_step|]. split.
  { intros sched s' Hsched. apply run_schedule_fuel in Hsched. lia. }
  split; [apply steps_to_joined|]. split.
  - by apply joined_drained_or_raised.
  - intros Hok Hj. by eapply healthy_joined; [| | |apply Hhealthy|].
Qed.

End Drain.

Lemma pool_hands_out_each_url_once_witness :
  ∃ s, run_schedule Sample.earth [0; 1; 0; 1; 0; 1]%nat
         (Pool ["http://bnb/1"; "http://bnb/2"] [Idle; Idle] [] [] []) = Some s
       ∧ joined s = true
       ∧ queue s = [] ∧ dequeued s = ["http://bnb/1"; "http://bnb/2"]
       ∧ length (store s) = 2%nat.
Proof.
  set (q := ["http://bnb/1"; "http://bnb/2"]).
  set (sched := [0; 1; 0; 1; 0; 1]%nat).
  set (p := Pool q [Idle; Idle] [] [] []).
  destruct (run_schedule Sample.earth sched p) as [s|] eqn:Hs;
    [|by vm_compute in Hs].
  exists s. split; [done|].
  assert (joined s = true) as Hj.
  { vm_compute in Hs. by injection Hs as <-. }
  split; [done|].
  assert (∀ url, url ∈ q → ∃ inserted, res (scrape Sample.earth url) = Ok inserted)
    as Hok.
  { intros url Hurl. apply list_elem_of_In in Hurl.
    destruct Hurl as [<-|[<-|[]]]; eexists; vm_compute; reflexivity. }
  destruct (pool_hands_out_each_url_once Sample.earth 10 [] q p
              ltac:(done) ltac:(lia) eq_refl s (ex_intro _ sched Hs))
    as (_ & _ & _ & _ & _ & Hend).
  exact (Hend Hok Hj).
Defined.

(** C1 as stated fails: with one worker and a first page that does not
    decode, [run] returns with the second URL still queued and never
    handed out, and the error stream holds the traceback of the
    [ValueError] only, no word of throttling. *)
Lemma undecodable_page_leaves_queue :
  ∃ p s, res (run 1 [] ["http://bnb/garbled"; "http://bnb/1"]) = Ok p
         ∧ run_schedule Sample.earth [0; 0]%nat p = Some s
         ∧ joined s = true
         ∧ workers s = [Exited (Some ValueError)]
         ∧ queue s = ["http://bnb/1"]
         ∧ dequeued s = ["http://bnb/garbled"]
         ∧ console s = [Traceback ValueError].
Proof. do 2 eexists. repeat split. Qed.

(** * Further properties of the code *)

(** ** The queue built from the input *)

Section InputQueue.

Lemma rstrip_cons_nonspace c s :
  is_space c = false → rstrip (String c s) = String c (rstrip s).
Proof. intros Hc. simpl. destruct (rstrip s); by rewrite ?Hc. Qed.

Lemma rstrip_idempotent s : rstrip (rstrip s) = rstrip s.
Proof.
  induction s as [|c s IH]; [done|]. simpl.
  destruct (rstrip s) as [|d r] eqn:Hr.
  - destruct (is_space c) eqn:Hc; [done|]. simpl. by rewrite Hc.
  - change (rstrip (String c (String d r))) with
      (match rstrip (String d r) with
       | EmptyString => if is_space c then EmptyString else String c EmptyString
       | String a b => String c (String a b)
       end).
    by rewrite IH.
Qed.

Lemma lstrip_head s :
  lstrip s = EmptyString ∨ ∃ c r, lstrip s = String c r ∧ is_space c = false.
Proof.
  induction s as [|c s IH]; [by left|]. simpl.
  destruct (is_space c) eqn:Hc; [done|]. right. by exists c, s.
Qed.

Lemma strip_idempotent s : strip (strip s) = strip s.
Proof.
  unfold strip. destruct (lstrip_head s) as [->|(c & r & -> & Hc)]; [done|].
  rewrite rstrip_cons_nonspace by done. simpl. rewrite Hc.
  rewrite rstrip_cons_nonspace by done. by rewrite rstrip_idempotent.
Qed.

Lemma put_all_filter input acc :
  put_all input acc = acc ++ List.filter keep (List.map strip input).
Proof.
  revert acc; induction input as [|url input IH]; intros acc; simpl.
  - by rewrite app_nil_r.
  - destruct (strip url) as [|c r] eqn:Hs; simpl; [apply IH|].
    destruct (Ascii.eqb c "#"); simpl; [apply IH|].
    by rewrite IH, <- app_assoc.
Qed.

Lemma process_input_cases W file :
  process_input W file =
    match open_file W file with
    | Ok lines => IO [Stdout "Processing urls..."] (Ok (put_all lines []))
    | Raise e =>
        if is_FileNotFoundError e
        then IO [Stdout "Processing urls..."]
               (Ok (put_all (if validators_url W file then [strip file] else []) []))
        else IO [Stdout "Processing urls..."] (Raise e)
    end.
Proof.
  unfold process_input, try_except, lift.
  destruct (open_file W file) as [lines|e]; [done|]. simpl.
  by destruct (is_FileNotFoundError e).
Qed.

(** X1. When the argument opens as a file, the queue holds, in the
    order of the file, the stripped lines that are not empty and do not
    start with [#]. The URL validator has no say in it. *)
Theorem file_lines_are_queued_unvalidated W file lines :
  open_file W file = Ok lines →
  process_input W file =
    IO [Stdout "Processing urls..."]
       (Ok (List.filter keep (List.map strip lines))).
Proof.
  intros Hopen. rewrite process_input_cases, Hopen.
  by rewrite put_all_filter.
Qed.

(** X2. Whatever the input, a URL that [__process_input] enqueues is
    not empty, does not start with [#] and has no white space around
    it (stripping it again changes nothing). *)
Theorem queued_urls_are_clean W file q url :
  res (process_input W file) = Ok q →
  url ∈ q →
  url ≠ EmptyString ∧ keep url = true ∧ strip url = url.
Proof.
  intros Hq Hurl.
  assert (∃ input, q = List.filter keep (List.map strip input)) as [input ->].
  { rewrite process_input_cases in Hq.
    destruct (open_file W file) as [lines|e].
    - exists lines. injection Hq as <-. exact (put_all_filter lines []).
    - destruct (is_FileNotFoundError e); [|done].
      eexists. injection Hq as <-. exact (put_all_filter _ []). }
  apply list_elem_of_In, filter_In in Hurl as [Hin Hkeep].
  apply in_map_iff in Hin as (line & <- & _).
  split; [|split; [done | apply strip_idempotent]].
  intros Hempty. by rewrite Hempty in Hkeep.
Qed.

Lemma io_bind_res_ok {A B} (m : io A) (f : A → io B) a :
  res m = Ok a → res (m ≫= f) = res (f a).
Proof. unfold mbind, io_bind. by intros ->. Qed.

(** X3. A literal URL in place of a file (the file does not exist
    and the validator accepts the argument) makes a queue of that one
    URL, stripped; [run] then starts one worker for any request of at
    least one connection, and none otherwise. *)
Theorem literal_url_gets_one_worker W conn db url :
  open_file W url = Raise FileNotFoundError →
  validators_url W url = true →
  keep (strip url) = true →
  ∃ p, res (main W conn db url) = Ok p
       ∧ queue p = [strip url]
       ∧ store p = init_db db
       ∧ workers p = (if 1 <=? conn then [Idle] else []).
Proof.
  intros Hopen Hvalid Hkeep.
  assert (res (process_input W url) = Ok [strip url]) as Hq.
  { rewrite process_input_cases, Hopen, Hvalid.
    cbn [is_FileNotFoundError res]. rewrite put_all_filter.
    cbn [List.map List.filter app]. by rewrite strip_idempotent, Hkeep. }
  unfold main. rewrite (io_bind_res_ok _ _ _ Hq), run_nonempty by done.
  eexists. split; [done|]. cbn [queue store workers]. do 2 (split; [done|]).
  unfold n_conn. simpl length. destruct (Z.leb_spec 1 conn).
  - by replace (Z.to_nat _) with 1%nat by lia.
  - by replace (Z.to_nat _) with 0%nat by lia.
Qed.

(** X4. Once the input has been read the exit status is 0, for every
    requested number of connections and every world: [run] leaves by a
    bare [sys.exit()] or starts the threads and returns. *)
Theorem exit_status_zero_after_input W conn db file q :
  res (process_input W file) = Ok q →
  exit_code W conn db file = 0.
Proof.
  intros Hq. unfold exit_code, main. rewrite (io_bind_res_ok _ _ _ Hq).
  destruct q as [|url q].
  - by rewrite run_empty.
  - by rewrite run_nonempty.
Qed.

End InputQueue.

Lemma file_lines_are_queued_unvalidated_witness :
  process_input Sample.earth "urls.txt" =
    IO [Stdout "Processing urls..."] (Ok ["http://bnb/1"; "http://bnb/2"]).
Proof.
  exact (file_lines_are_queued_unvalidated Sample.earth "urls.txt"
           ["# rooms"; ""; " http://bnb/1 "; "http://bnb/2"] eq_refl).
Defined.

Lemma queued_urls_are_clean_witness :
  "http://bnb/1" ≠ EmptyString ∧ keep "http://bnb/1" = true
  ∧ strip "http://bnb/1" = "http://bnb/1".
Proof.
  apply (queued_urls_are_clean Sample.earth "urls.txt"
           ["http://bnb/1"; "http://bnb/2"] "http://bnb/1" eq_refl).
  apply list_elem_of_here.
Defined.

Lemma literal_url_gets_one_worker_witness :
  ∃ p, res (main Sample.earth 10 None "http://bnb/1") = Ok p
       ∧ queue p = ["http://bnb/1"]
       ∧ store p = []
       ∧ workers p = [Idle].
Proof.
  exact (literal_url_gets_one_worker Sample.earth 10 None "http://bnb/1"
           eq_refl eq_refl eq_refl).
Defined.

Lemma exit_status_zero_after_input_witness :
  exit_code Sample.earth 2 None "mixed.txt" = 0.
Proof.
  exact (exit_status_zero_after_input Sample.earth 2 None "mixed.txt"
           ["http://bnb/throttled"; "http://bnb/1"; "http://bnb/2"] eq_refl).
Defined.

(** ** What one turn of a worker can do *)

Section OneTurn.
Context (W : world).

Lemma third_payload_IndexError items :
  Scraper.third_payload W items = Raise IndexError ↔ (length items < 3)%nat.
Proof.
  unfold Scraper.third_payload. split.
  - destruct (items !! 2%nat) as [[text|]|] eqn:Hthird.
    + by destruct (json_loads W _).
    + done.
    + intros _. apply lookup_ge_None in Hthird. lia.
  - intros Hlen. by rewrite (lookup_ge_None_2 items 2) by lia.
Qed.

Lemma get_full_site_json_cases content items :
  json_scripts W content = Ok items →
  Scraper.get_full_site_json W content =
    match Scraper.third_payload W items with
    | Ok v => IO [] (Ok v)
    | Raise e =>
        if is_IndexError e
        then IO [Stderr Scraper.throttling] (Raise (SystemExit None))
        else IO [] (Raise e)
    end.
Proof.
  intros Hitems. unfold Scraper.get_full_site_json.
  rewrite Hitems, io_bind_lift_ok. unfold try_except, lift. simpl.
  destruct (Scraper.third_payload W items) as [v|e]; [done|].
  by destruct (is_IndexError e).
Qed.

(** X5. On a page whose script elements could be listed, the
    throttling message is written exactly when there are fewer than
    three of them, and [SystemExit] is raised with it; with three or
    more, nothing is written, whatever the third one holds. *)
Theorem throttling_iff_fewer_than_three content items :
  json_scripts W content = Ok items →
  (Stderr Scraper.throttling ∈ out (Scraper.get_full_site_json W content)
   ↔ (length items < 3)%nat)
  ∧ ((length items < 3)%nat →
     Scraper.get_full_site_json W content =
       IO [Stderr Scraper.throttling] (Raise (SystemExit None)))
  ∧ ((3 ≤ length items)%nat →
     Scraper.get_full_site_json W content =
       IO [] (Scraper.third_payload W items)).
Proof.
  intros Hitems. rewrite (get_full_site_json_cases _ _ Hitems).
  pose proof (third_payload_IndexError items) as Hidx.
  destruct (Scraper.third_payload W items) as [v|e] eqn:Hthird.
  - assert (¬ (length items < 3)%nat) as Hlen by (intros H; by apply Hidx in H).
    split; [|split]; [|lia|done]. simpl. split; [|done].
    by intros ?%elem_of_nil.
  - destruct (is_IndexError e) eqn:He.
    + assert (e = IndexError) as -> by by destruct e.
      assert (length items < 3)%nat as Hlen by by apply Hidx.
      split; [|split]; [|done|lia]. simpl. split; [done|]. intros _.
      apply list_elem_of_here.
    + assert (¬ (length items < 3)%nat) as Hlen.
      { intros H. apply Hidx in H. injection H as ->. done. }
      split; [|split]; [|lia|done]. simpl. split; [|done].
      by intros ?%elem_of_nil.
Qed.

(** The constructor of [PropertyScraper], by the outcome of the GET. *)
Lemma init_cases url :
  Scraper.init W url =
    match requests_get W url with
    | Ok content =>
        try_except (Scraper.set_listing W content) is_MissingSchema
          (write (Stdout ("Invalid URL (?) " +:+ url));; sys_exit)
    | Raise e =>
        if is_MissingSchema e
        then IO [Stdout ("Invalid URL (?) " +:+ url)] (Raise (SystemExit None))
        else IO [] (Raise e)
    end.
Proof.
  unfold Scraper.init. destruct (requests_get W url) as [content|e].
  - by rewrite io_bind_lift_ok.
  - unfold try_except, lift. simpl. by destruct (is_MissingSchema e).
Qed.

(** X6. When the GET raises, nothing is stored for the URL. An
    address without scheme ([MissingSchema]) is announced on the
    output stream and ends the turn by [SystemExit]; every other
    exception of the transport leaves the turn as it is, nothing
    written and nothing tried again. *)
Theorem failed_get_is_not_retried url e :
  requests_get W url = Raise e →
  scrape W url =
    (if is_MissingSchema e
     then IO [Stdout ("Invalid URL (?) " +:+ url)] (Raise (SystemExit None))
     else IO [] (Raise e))
  ∧ ∀ s i, workers s !! i = Some (Busy url) →
      ∃ s', step W i s = Some s'
            ∧ store s' = store s
            ∧ queue s' = queue s
            ∧ workers s' !! i =
                Some (Exited (Some (if is_MissingSchema e
                                    then SystemExit None else e))).
Proof.
  intros Hget.
  assert (scrape W url =
            (if is_MissingSchema e
             then IO [Stdout ("Invalid URL (?) " +:+ url)] (Raise (SystemExit None))
             else IO [] (Raise e))) as Hscrape.
  { unfold scrape. rewrite init_cases, Hget.
    by destruct (is_MissingSchema e). }
  split; [done|]. intros s i Hw. unfold step. rewrite Hw, Hscrape.
  assert (i < length (workers s))%nat as Hi by by eapply lookup_lt_Some.
  destruct (is_MissingSchema e); eexists; (split; [reflexivity|]);
    cbn [store queue workers]; by rewrite list_lookup_insert_eq.
Qed.

Lemma scrape_listing_json_raises url content o e :
  requests_get W url = Ok content →
  Scraper.get_listing_json W content = IO o (Raise e) →
  is_MissingSchema e = false →
  scrape W url = IO o (Raise e).
Proof.
  intros Hget Hjson Hcaught. unfold scrape. apply io_bind_raise.
  rewrite init_cases, Hget.
  assert (Scraper.set_listing W content = IO o (Raise e)) as ->
    by by apply io_bind_raise.
  unfold try_except. simpl. by rewrite Hcaught.
Qed.

(** X7. A decoded payload that is not shaped as expected ends the turn
    with the exception of the failing subscript, nothing written and
    nothing stored: [KeyError] with the missing key when the payload
    has no [bootstrapData] or its [bootstrapData] no [listing],
    [TypeError] when the payload is not an object. *)
Theorem misshapen_payload_raises url content items text site :
  requests_get W url = Ok content →
  json_scripts W content = Ok items →
  items !! 2%nat = Some (Some text) →
  json_loads W (slice text 4 (-3)) = Some site →
  (∀ fields, site = VObj fields → assoc "bootstrapData" fields = None →
     scrape W url = IO [] (Raise (KeyError "bootstrapData")))
  ∧ (∀ fields inner, site = VObj fields →
       assoc "bootstrapData" fields = Some (VObj inner) →
       assoc "listing" inner = None →
       scrape W url = IO [] (Raise (KeyError "listing")))
  ∧ ((∀ fields, site ≠ VObj fields) →
     scrape W url = IO [] (Raise TypeError)).
Proof.
  intros Hget Hitems Hthird Hloads.
  assert (Scraper.get_full_site_json W content = IO [] (Ok site)) as Hsite.
  { rewrite (get_full_site_json_third W _ _ _ Hitems Hthird). by rewrite Hloads. }
  assert (∀ e, (getitem site "bootstrapData" ≫= λ b, getitem b "listing") = Raise e →
               is_MissingSchema e = false →
               scrape W url = IO [] (Raise e)) as Hraise.
  { intros e He Hcaught. apply scrape_listing_json_raises with content; try done.
    unfold Scraper.get_listing_json. rewrite Hsite.
    unfold mbind at 1 2, io_bind, lift. simpl.
    destruct (getitem site "bootstrapData") as [b|e']; simpl in *.
    - by rewrite He.
    - by injection He as ->. }
  split; [|split].
  - intros fields -> Hnone. apply Hraise; [|done]. simpl. by rewrite Hnone.
  - intros fields inner -> Hsome Hnone. apply Hraise; [|done]. simpl.
    rewrite Hsome. simpl. by rewrite Hnone.
  - intros Hshape. apply Hraise; [|done].
    destruct site; try done. by destruct (Hshape fields).
Qed.

Lemma get_full_site_json_out content :
  out (Scraper.get_full_site_json W content) = []
  ∨ Scraper.get_full_site_json W content =
      IO [Stderr Scraper.throttling] (Raise (SystemExit None)).
Proof.
  destruct (json_scripts W content) as [items|e] eqn:Hitems.
  - rewrite (get_full_site_json_cases _ _ Hitems).
    destruct (Scraper.third_payload W items) as [v|e]; [by left|].
    destruct (is_IndexError e); [by right | by left].
  - left. unfold Scraper.get_full_site_json. by rewrite Hitems.
Qed.

(** A step that writes nothing keeps what was written. *)
Lemma io_bind_quiet {A B} (m : io A) (f : A → io B) o e :
  (∀ a, out (f a) = []) →
  out m = [] ∨ m = IO o (Raise e) →
  out (m ≫= f) = [] ∨ m ≫= f = IO o (Raise e).
Proof.
  intros Hf [Hm| ->]; [|by right]. left.
  unfold mbind, io_bind. destruct (res m); simpl; [|done].
  by rewrite Hm, Hf.
Qed.

Lemma set_listing_out content :
  out (Scraper.set_listing W content) = []
  ∨ Scraper.set_listing W content =
      IO [Stderr Scraper.throttling] (Raise (SystemExit None)).
Proof.
  unfold Scraper.set_listing, Scraper.get_listing_json.
  apply io_bind_quiet; [done|]. apply io_bind_quiet.
  - intros site. unfold mbind, io_bind, lift. simpl.
    by destruct (getitem site "bootstrapData").
  - apply get_full_site_json_out.
Qed.

(** All that one turn writes: nothing, or one of its two messages on
    its way out by [SystemExit]. *)
Lemma scrape_out_cases url :
  out (scrape W url) = []
  ∨ (res (scrape W url) = Raise (SystemExit None)
     ∧ (out (scrape W url) = [Stderr Scraper.throttling]
        ∨ out (scrape W url) = [Stdout ("Invalid URL (?) " +:+ url)])).
Proof.
  unfold scrape. rewrite init_cases.
  destruct (requests_get W url) as [content|e].
  - destruct (set_listing_out content) as [Hquiet| ->].
    + unfold try_except.
      destruct (Scraper.set_listing W content) as [o [listing|e]]; simpl in *;
        subst o; [by left|].
      destruct (is_MissingSchema e); [right | left]; by auto.
    + right. by auto.
  - destruct (is_MissingSchema e); [right | left]; by auto.
Qed.

Lemma store_db_url url listing r :
  store_db W url listing = Ok r → col_url r = SqlText url.
Proof.
  intros Hstore. unfold store_db in Hstore.
  repeat step_hyp Hstore. by inversion Hstore.
Qed.

Lemma scrape_Ok url r :
  res (scrape W url) = Ok r →
  ∃ listing, res (Scraper.init W url) = Ok listing
             ∧ store_db W url listing = Ok r.
Proof.
  unfold scrape, mbind, io_bind, lift.
  destruct (res (Scraper.init W url)) as [listing|e]; simpl; [|done].
  intros Hr. by exists listing.
Qed.

(** X8. A turn that ends with a row has written nothing on either
    stream, and the row is what [__store_db] made of the listing that
    the constructor extracted, with the dequeued URL in its first
    column. *)
Theorem stored_row_is_silent_and_keyed url r :
  res (scrape W url) = Ok r →
  out (scrape W url) = []
  ∧ col_url r = SqlText url
  ∧ ∃ listing, res (Scraper.init W url) = Ok listing
               ∧ store_db W url listing = Ok r.
Proof.
  intros Hr. split; [|split].
  - destruct (scrape_out_cases url) as [Hquiet|[Hexit _]]; [done|congruence].
  - destruct (scrape_Ok url r Hr) as (listing & _ & Hstore).
    by eapply store_db_url.
  - by apply scrape_Ok.
Qed.

(** X9. A turn that writes anything ends by [SystemExit]. Whatever the
    schedule, the console only ever receives three kinds of lines from
    the threads: the throttling message, an invalid-URL line, and
    tracebacks of exceptions other than [SystemExit]. *)
Theorem console_lines_are_of_three_kinds :
  (∀ url, out (scrape W url) = []
          ∨ res (scrape W url) = Raise (SystemExit None))
  ∧ (∀ s s', steps W s s' →
     ∀ line, line ∈ console s' →
       line ∈ console s
       ∨ line = Stderr Scraper.throttling
       ∨ (∃ url, line = Stdout ("Invalid URL (?) " +:+ url))
       ∨ (∃ e, line = Traceback e ∧ ∀ code, e ≠ SystemExit code)).
Proof.
  split.
  { intros url. destruct (scrape_out_cases url) as [?|[? _]]; by auto. }
  intros s s' Hsteps. revert Hsteps.
  apply (steps_ind W (λ s', ∀ line, line ∈ console s' →
    line ∈ console s
    ∨ line = Stderr Scraper.throttling
    ∨ (∃ url, line = Stdout ("Invalid URL (?) " +:+ url))
    ∨ (∃ e, line = Traceback e ∧ ∀ code, e ≠ SystemExit code))); [|by left].
  intros i s1 s2 IH Hmove line Hline.
  assert (∀ url, line ∈ out (scrape W url) →
            line = Stderr Scraper.throttling
            ∨ (∃ url, line = Stdout ("Invalid URL (?) " +:+ url))) as Hout.
  { intros url Hin.
    destruct (scrape_out_cases url) as [Hquiet|[_ [Hthr|Hinv]]].
    - rewrite Hquiet in Hin. by apply elem_of_nil in Hin.
    - rewrite Hthr in Hin. apply list_elem_of_singleton in Hin. by left.
    - rewrite Hinv in Hin. apply list_elem_of_singleton in Hin. right. by eexists. }
  destruct Hmove as [Hw Hempty|url rest Hw Hget|url inserted Hw Hr|url e Hw Hr];
    cbn [console] in Hline; try by apply IH.
  - apply elem_of_app in Hline as [Hold|Hnew]; [by apply IH|].
    right. destruct (Hout url Hnew) as [?|?]; by auto.
  - apply elem_of_app in Hline as [Hold|Hnew]; [by apply IH|].
    apply elem_of_app in Hnew as [Hnew|Htrace].
    + right. destruct (Hout url Hnew) as [?|?]; by auto.
    + do 3 right. exists e. destruct e; simpl in Htrace;
        try (by apply elem_of_nil in Htrace);
        apply list_elem_of_singleton in Htrace; by split.
Qed.

End OneTurn.

Lemma throttling_iff_fewer_than_three_witness :
  Scraper.get_full_site_json Sample.earth "http://bnb/throttled" =
    IO [Stderr Scraper.throttling] (Raise (SystemExit None)).
Proof.
  destruct (throttling_iff_fewer_than_three Sample.earth "http://bnb/throttled"
              [Some "<!--{}-->"; Some "<!--{}-->"] eq_refl) as (_ & H & _).
  apply H. simpl. lia.
Defined.

Lemma failed_get_is_not_retried_witness :
  scrape Sample.earth "bnb/1" =
    IO [Stdout "Invalid URL (?) bnb/1"] (Raise (SystemExit None)).
Proof.
  exact (proj1 (failed_get_is_not_retried Sample.earth "bnb/1" MissingSchema
                  eq_refl)).
Defined.

Lemma misshapen_payload_raises_witness :
  scrape barren "http://bnb/1" = IO [] (Raise (KeyError "bootstrapData")).
Proof.
  destruct (misshapen_payload_raises barren "http://bnb/1" "http://bnb/1"
              [Some "<!--{}-->"; None; Some "<!--http://bnb/1-->"]
              "<!--http://bnb/1-->" (VObj []) eq_refl eq_refl eq_refl eq_refl)
    as (H & _ & _).
  by apply (H []).
Defined.

Lemma stored_row_is_silent_and_keyed_witness :
  ∃ r, res (scrape Sample.earth "http://bnb/1") = Ok r
       ∧ out (scrape Sample.earth "http://bnb/1") = []
       ∧ col_url r = SqlText "http://bnb/1".
Proof.
  destruct (res (scrape Sample.earth "http://bnb/1")) as [r|e] eqn:Hr;
    [|by vm_compute in Hr].
  exists r. split; [done|].
  destruct (stored_row_is_silent_and_keyed Sample.earth "http://bnb/1" r Hr)
    as (Hout & Hurl & _).
  by split.
Defined.

Lemma console_lines_are_of_three_kinds_witness :
  Stderr Scraper.throttling ∈ ([] : list output)
  ∨ Stderr Scraper.throttling = Stderr Scraper.throttling
  ∨ (∃ url, Stderr Scraper.throttling = Stdout ("Invalid URL (?) " +:+ url))
  ∨ (∃ e, Stderr Scraper.throttling = Traceback e ∧ ∀ code, e ≠ SystemExit code).
Proof.
  apply (proj2 (console_lines_are_of_three_kinds Sample.earth)
           (Pool ["http://bnb/throttled"] [Idle] [] [] [])
           (Pool [] [Exited (Some (SystemExit None))] []
              [Stderr Scraper.throttling] ["http://bnb/throttled"])).
  - by exists [0; 0]%nat.
  - apply list_elem_of_here.
Defined.

(** ** The books of the pool *)

Section Books.
Context (W : world).

(** X10. Along every schedule the shared state only moves one way:
    URLs leave the queue from its front and join the history in that
    order, none is put back, rows and console lines are appended and
    none is changed or removed, and the number of threads is fixed. *)
Theorem pool_is_append_only s s' :
  steps W s s' →
  ∃ taken rows lines,
    queue s = taken ++ queue s'
    ∧ dequeued s' = dequeued s ++ taken
    ∧ store s' = store s ++ rows
    ∧ console s' = console s ++ lines
    ∧ length (workers s') = length (workers s).
Proof.
  apply (steps_ind W (λ s', ∃ taken rows lines,
    queue s = taken ++ queue s'
    ∧ dequeued s' = dequeued s ++ taken
    ∧ store s' = store s ++ rows
    ∧ console s' = console s ++ lines
    ∧ length (workers s') = length (workers s))).
  - intros i s1 s2 (taken & rows & lines & Hq & Hd & Hs & Hc & Hl) Hmove.
    pose proof (moves_workers_length W i s1 s2 Hmove) as Hlen.
    destruct Hmove as [Hw Hempty|url rest Hw Hget|url inserted Hw Hr|url e Hw Hr];
      cbn [queue dequeued store console workers] in *.
    + exists taken, rows, lines. rewrite Hempty in Hq. by rewrite <- Hlen in Hl.
    + exists (taken ++ [url]), rows, lines. rewrite Hget in Hq.
      rewrite Hq, Hd, <- !app_assoc. by rewrite <- Hlen in Hl.
    + exists taken, (rows ++ [inserted]), (lines ++ out (scrape W url)).
      rewrite Hs, Hc, <- !app_assoc. by rewrite <- Hlen in Hl.
    + exists taken, rows, (lines ++ out (scrape W url) ++ excepthook e).
      rewrite Hc, <- !app_assoc. by rewrite <- Hlen in Hl.
  - exists [], [], []. by rewrite !app_nil_r.
Qed.

Lemma failed_le (ws : list worker) : (failed ws ≤ length ws)%nat.
Proof.
  unfold failed. induction ws as [|[| |[e|]] ws IH]; csimpl; lia.
Qed.

Lemma failed_replicate_Idle n : failed (replicate n Idle) = 0%nat.
Proof. unfold failed. induction n as [|n IH]; csimpl; [done | by rewrite IH]. Qed.

(** Every URL handed out is a row, is with its worker, or took its
    worker out. *)
Lemma moves_balance i s s' :
  moves W i s s' →
  (length (store s') + in_flight (workers s') + failed (workers s')
   + length (dequeued s)
   = length (store s) + in_flight (workers s) + failed (workers s)
     + length (dequeued s'))%nat.
Proof.
  intros [Hw Hempty|url rest Hw Hget|url inserted Hw Hr|url e Hw Hr];
    cbn [store workers dequeued]; rewrite ?length_app; cbn [length];
    match goal with
    | |- context [<[i := ?w']> (workers s)] =>
        pose proof (sum_insert (λ w, if busy w then 1%nat else 0%nat)
                      (workers s) i _ w' Hw) as Hbusy;
        pose proof (sum_insert
                      (λ w, match w with Exited (Some _) => 1%nat | _ => 0%nat end)
                      (workers s) i _ w' Hw) as Hfailed
    end;
    unfold in_flight, failed; cbn [busy] in Hbusy, Hfailed; lia.
Qed.

Lemma started_pool conn db q p :
  res (run conn db q) = Ok p →
  q ≠ [] ∧ p = Pool q (replicate (Z.to_nat (n_conn conn q)) Idle) db [] [].
Proof.
  intros Hrun. assert (q ≠ []) as Hq.
  { intros ->. by rewrite run_empty in Hrun. }
  split; [done|]. rewrite run_nonempty in Hrun by done. by injection Hrun as <-.
Qed.

(** X11. The pool keeps its books: at any moment after [run] has
    started the threads, the URLs handed out so far are as many as the
    rows appended, the URLs still with a worker and the workers taken
    out by an exception together. So when [run] returns, every URL of
    the input is a new row, or ended a worker, or is still queued. *)
Theorem every_url_is_accounted_for conn db q p s :
  res (run conn db q) = Ok p →
  steps W p s →
  (length (store s) + in_flight (workers s) + failed (workers s)
   = length db + length (dequeued s))%nat
  ∧ (failed (workers s) ≤ length (workers s))%nat
  ∧ Z.of_nat (length (workers s)) = Z.max 0 (n_conn conn q)
  ∧ (joined s = true →
     (length (store s) + failed (workers s) + length (queue s)
      = length db + length q)%nat).
Proof.
  intros Hrun Hsteps. destruct (started_pool _ _ _ _ Hrun) as [Hq ->].
  set (n := Z.to_nat (n_conn conn q)) in *.
  set (P := λ s : pool,
    (length (store s) + in_flight (workers s) + failed (workers s)
     = length db + length (dequeued s))%nat
    ∧ length (workers s) = n
    ∧ dequeued s ++ queue s = q).
  assert (P s) as (Hbooks & Hlen & Hacc).
  { revert Hsteps. apply (steps_ind W P); subst P; cbv beta.
    - intros i s1 s2 (H1 & H2 & H3) Hmove. split; [|split].
      + pose proof (moves_balance i s1 s2 Hmove). lia.
      + by rewrite (moves_workers_length W i s1 s2).
      + by eapply moves_accounted.
    - cbn [store workers dequeued queue].
      rewrite in_flight_replicate_Idle, failed_replicate_Idle, length_replicate.
      split; [simpl; lia | done]. }
  split; [done|]. split; [apply failed_le|]. split; [lia|].
  intros Hj. rewrite (joined_in_flight s Hj) in Hbooks.
  apply (f_equal length) in Hacc. rewrite length_app in Hacc. lia.
Qed.

(** X12. [run] returns with URLs still queued only when every worker
    thread was taken out by an exception: a single worker that reaches
    [Queue.Empty] means the queue was drained. *)
Theorem urls_left_only_if_all_workers_died conn db q p s :
  res (run conn db q) = Ok p →
  steps W p s →
  joined s = true →
  queue s ≠ [] →
  (∀ i w, workers s !! i = Some w → ∃ e, w = Exited (Some e))
  ∧ failed (workers s) = length (workers s).
Proof.
  intros Hrun Hsteps Hj Hleft. destruct (started_pool _ _ _ _ Hrun) as [Hq ->].
  assert ((∃ j, workers s !! j = Some (Exited None)) → queue s = []) as Hseen.
  { revert Hsteps.
    apply (steps_ind W (λ s, (∃ j, workers s !! j = Some (Exited None)) →
                             queue s = [])).
    - intros i s1 s2 H1 Hmove. by eapply moves_empty_seen.
    - by intros [j [? _]%lookup_replicate]. }
  assert (∀ i w, workers s !! i = Some w → ∃ e, w = Exited (Some e)) as Hall.
  { intros i w Hw. pose proof (proj1 (joined_lookup s) Hj i w Hw) as Hexited.
    destruct w as [| |[e|]]; try done; [by exists e|].
    destruct Hleft. apply Hseen. by exists i. }
  split; [done|]. clear -Hall. unfold failed.
  induction (workers s) as [|w ws IH]; [done|]. csimpl.
  destruct (Hall 0%nat w eq_refl) as [e ->].
  rewrite IH; [done|]. intros i w' Hw'. by apply (Hall (S i)).
Qed.

End Books.

(** ** Rows and the URLs they come from *)

Section Rows.
Context (W : world).

Lemma held_insert (ws : list worker) i w w' :
  ws !! i = Some w →
  (<[i := w']> ws ≫= held) ++ held w ≡ₚ (ws ≫= held) ++ held w'.
Proof.
  revert i; induction ws as [|x ws IH]; intros [|i] Hi; simpl in Hi; try done.
  - injection Hi as ->. cbn [insert list_insert]. rewrite !bind_cons.
    rewrite <- (app_assoc (held w')), (Permutation_app_comm (held w')).
    rewrite <- !app_assoc. rewrite !(app_assoc _ _ (held w')).
    apply Permutation_app; [apply Permutation_app_comm | done].
  - cbn [insert list_insert]. rewrite !bind_cons, <- !app_assoc.
    by apply Permutation_app_head, IH.
Qed.

Lemma held_replicate_Idle n : replicate n Idle ≫= held = [].
Proof. induction n as [|n IH]; [done|]. simpl replicate. by rewrite bind_cons, IH. Qed.

(** What holds in every state that the threads reach from the pool
    that [run] starts. *)
Lemma started_pool_invariants q db n s :
  steps W (Pool q (replicate n Idle) db [] []) s →
  dequeued s ++ queue s = q
  ∧ ((∃ j, workers s !! j = Some (Exited None)) → queue s = [])
  ∧ length (workers s) = n
  ∧ ((∀ url, url ∈ q → ∃ inserted, res (scrape W url) = Ok inserted) →
     healthy q db s).
Proof.
  apply (steps_ind W (λ s,
    dequeued s ++ queue s = q
    ∧ ((∃ j, workers s !! j = Some (Exited None)) → queue s = [])
    ∧ length (workers s) = n
    ∧ ((∀ url, url ∈ q → ∃ inserted, res (scrape W url) = Ok inserted) →
       healthy q db s))).
  - intros i s1 s2 (H1 & H2 & H3 & H4) Hmove. split; [|split; [|split]].
    + by eapply moves_accounted.
    + by eapply moves_empty_seen.
    + by rewrite (moves_workers_length W i s1 s2).
    + intros Hok. eapply moves_healthy; [done| |done]. by apply H4.
  - cbn [queue workers dequeued]. split; [|split; [|split]].
    + done.
    + by intros [j [? _]%lookup_replicate].
    + apply length_replicate.
    + intros _. apply started_healthy.
Qed.

(** The URLs of the new rows and of the busy workers were handed out,
    each as often as it occurs there. *)
Lemma moves_rows db i s s' :
  (∃ rows, store s = db ++ rows
           ∧ (col_url <$> rows) ++ (SqlText <$> (workers s ≫= held))
             ⊆+ SqlText <$> dequeued s) →
  moves W i s s' →
  ∃ rows, store s' = db ++ rows
          ∧ (col_url <$> rows) ++ (SqlText <$> (workers s' ≫= held))
            ⊆+ SqlText <$> dequeued s'.
Proof.
  intros (rows & Hstore & Hsub)
    [Hw Hempty|url rest Hw Hget|url inserted Hw Hr|url e Hw Hr];
    cbn [store workers dequeued].
  - exists rows. split; [done|].
    pose proof (held_insert (workers s) i _ (Exited None) Hw) as Hheld.
    cbn [held] in Hheld. rewrite !app_nil_r in Hheld. by rewrite Hheld.
  - exists rows. split; [done|].
    pose proof (held_insert (workers s) i _ (Busy url) Hw) as Hheld.
    cbn [held] in Hheld. rewrite app_nil_r in Hheld.
    rewrite Hheld, !fmap_app, app_assoc. by apply submseteq_skips_r.
  - exists (rows ++ [inserted]). split; [by rewrite Hstore, app_assoc|].
    pose proof (held_insert (workers s) i _ Idle Hw) as Hheld.
    cbn [held] in Hheld. rewrite app_nil_r in Hheld.
    destruct (scrape_Ok W url inserted Hr) as (listing & _ & Hdb).
    apply store_db_url in Hdb.
    rewrite <- Hheld, fmap_app in Hsub. cbn [fmap list_fmap] in Hsub.
    rewrite fmap_app. cbn [fmap list_fmap]. rewrite Hdb, <- app_assoc.
    by rewrite (Permutation_app_comm [SqlText url]).
  - exists rows. split; [done|].
    pose proof (held_insert (workers s) i _ (Exited (Some e)) Hw) as Hheld.
    cbn [held] in Hheld. rewrite app_nil_r in Hheld.
    rewrite <- Hheld, fmap_app, app_assoc in Hsub.
    etrans; [|exact Hsub]. by apply submseteq_inserts_r.
Qed.

(** X13. No row is written for a URL that was not handed out, and no
    URL is processed twice: the first columns of the rows that a run
    has appended so far, together with the URLs the workers hold, are
    among the URLs handed out, each at most as often as it occurs
    there, hence at most as often as in the input. When no page fails
    and at least one connection is asked for, the rows appended at the
    return of [run] carry the input URLs exactly, in some order. *)
Theorem rows_come_from_dequeued_urls conn db q p s :
  res (run conn db q) = Ok p →
  steps W p s →
  ∃ rows, store s = db ++ rows
          ∧ (col_url <$> rows) ++ (SqlText <$> (workers s ≫= held))
            ⊆+ SqlText <$> dequeued s
          ∧ col_url <$> rows ⊆+ SqlText <$> q
          ∧ (1 ≤ conn →
             (∀ url, url ∈ q → ∃ inserted, res (scrape W url) = Ok inserted) →
             joined s = true →
             col_url <$> rows ≡ₚ SqlText <$> q).
Proof.
  intros Hrun Hsteps. destruct (started_pool _ _ _ _ Hrun) as [Hq ->].
  destruct (started_pool_invariants _ _ _ _ Hsteps)
    as (Hacc & Hseen & Hlen & Hhealthy).
  assert (∃ rows, store s = db ++ rows
                  ∧ (col_url <$> rows) ++ (SqlText <$> (workers s ≫= held))
                    ⊆+ SqlText <$> dequeued s) as (rows & Hstore & Hsub).
  { revert Hsteps. apply (steps_ind W (λ s, ∃ rows, store s = db ++ rows
      ∧ (col_url <$> rows) ++ (SqlText <$> (workers s ≫= held))
        ⊆+ SqlText <$> dequeued s)).
    - intros i s1 s2 H1 Hmove. by eapply moves_rows.
    - exists []. cbn [store workers dequeued].
      by rewrite app_nil_r, held_replicate_Idle. }
  assert (col_url <$> rows ⊆+ SqlText <$> q) as Hinput.
  { etrans; [by apply submseteq_inserts_r|]. etrans; [exact Hsub|].
    rewrite <- Hacc, fmap_app. by apply submseteq_inserts_r. }
  exists rows. do 3 (split; [done|]).
  intros Hconn Hok Hj.
  assert (workers s ≠ []) as Hne.
  { intros Hnil. rewrite Hnil in Hlen. simpl in Hlen.
    unfold n_conn in Hlen. destruct q; [done|]. simpl length in Hlen. lia. }
  destruct (healthy_joined W q db Hok s Hne Hseen (Hhealthy Hok) Hj)
    as (_ & _ & Hcount).
  apply submseteq_length_Permutation; [done|].
  rewrite !length_fmap. rewrite Hstore, length_app in Hcount. lia.
Qed.

End Rows.

Lemma pool_is_append_only_witness :
  ∃ taken rows lines,
    ["http://bnb/garbled"; "http://bnb/1"] = taken ++ ["http://bnb/1"]
    ∧ ["http://bnb/garbled"] = [] ++ taken
    ∧ ([] : list row) = [] ++ rows
    ∧ [Traceback ValueError] = [] ++ lines
    ∧ length [Exited (Some ValueError)] = length [Idle].
Proof.
  exact (pool_is_append_only Sample.earth
           (Pool ["http://bnb/garbled"; "http://bnb/1"] [Idle] [] [] [])
           (Pool ["http://bnb/1"] [Exited (Some ValueError)] []
              [Traceback ValueError] ["http://bnb/garbled"])
           (ex_intro _ [0; 0]%nat eq_refl)).
Defined.

Lemma every_url_is_accounted_for_witness :
  (0 + failed [Exited (Some ValueError)] + length ["http://bnb/1"]
   = 0 + length ["http://bnb/garbled"; "http://bnb/1"])%nat.
Proof.
  destruct (every_url_is_accounted_for Sample.earth 1 []
              ["http://bnb/garbled"; "http://bnb/1"]
              (Pool ["http://bnb/garbled"; "http://bnb/1"] [Idle] [] [] [])
              (Pool ["http://bnb/1"] [Exited (Some ValueError)] []
                 [Traceback ValueError] ["http://bnb/garbled"])
              eq_refl (ex_intro _ [0; 0]%nat eq_refl)) as (_ & _ & _ & H).
  exact (H eq_refl).
Defined.

Lemma urls_left_only_if_all_workers_died_witness :
  failed [Exited (Some ValueError)] = length [Exited (Some ValueError)].
Proof.
  refine (proj2 (urls_left_only_if_all_workers_died Sample.earth 1 []
              ["http://bnb/garbled"; "http://bnb/1"]
              (Pool ["http://bnb/garbled"; "http://bnb/1"] [Idle] [] [] [])
              (Pool ["http://bnb/1"] [Exited (Some ValueError)] []
                 [Traceback ValueError] ["http://bnb/garbled"])
              eq_refl (ex_intro _ [0; 0]%nat eq_refl) eq_refl _)).
  done.
Defined.

Lemma rows_come_from_dequeued_urls_witness :
  ∃ s rows,
    run_schedule Sample.earth [0; 1; 0; 1; 0; 1]%nat
      (Pool ["http://bnb/1"; "http://bnb/2"] [Idle; Idle] [] [] []) = Some s
    ∧ store s = [] ++ rows
    ∧ col_url <$> rows ≡ₚ [SqlText "http://bnb/1"; SqlText "http://bnb/2"].
Proof.
  set (q := ["http://bnb/1"; "http://bnb/2"]).
  set (sched := [0; 1; 0; 1; 0; 1]%nat).
  set (p := Pool q [Idle; Idle] [] [] []).
  destruct (run_schedule Sample.earth sched p) as [s|] eqn:Hs;
    [|by vm_compute in Hs].
  assert (joined s = true) as Hj.
  { vm_compute in Hs. by injection Hs as <-. }
  assert (∀ url, url ∈ q → ∃ inserted, res (scrape Sample.earth url) = Ok inserted)
    as Hok.
  { intros url Hurl. apply list_elem_of_In in Hurl.
    destruct Hurl as [<-|[<-|[]]]; eexists; vm_compute; reflexivity. }
  destruct (rows_come_from_dequeued_urls Sample.earth 10 [] q p s
              eq_refl (ex_intro _ sched Hs)) as (rows & Hstore & _ & _ & Hperm).
  exists s, rows. split; [done|]. split; [done|].
  apply Hperm; [lia | done | done].
Defined.

(** ** The text handed to the decoder *)

Section SliceBounds.
Context (W : world).

Lemma substring_length n m s :
  String.length (String.substring n m s) = (m `min` (String.length s - n))%nat.
Proof.
  revert n m; induction s as [|c s IH]; intros [|n] [|m]; simpl;
    rewrite ?IH; try lia.
  destruct (String.length s - n)%nat; lia.
Qed.

Lemma string_length_0 s : String.length s = 0%nat → s = EmptyString.
Proof. by destruct s. Qed.

(** X14. The slice [[4:-3]] never fails: what goes to [json.loads] is
    the element's text less 7 characters, and the empty string for a
    text of 7 characters or fewer, which is then a matter of decoding
    and never the throttling case. *)
Theorem payload_slice_length text :
  String.length (slice text 4 (-3)) = (String.length text - 7)%nat
  ∧ ((String.length text ≤ 7)%nat → slice text 4 (-3) = EmptyString)
  ∧ (∀ items, (String.length text ≤ 7)%nat →
       items !! 2%nat = Some (Some text) →
       Scraper.third_payload W items =
         match json_loads W EmptyString with
         | Some v => Ok v
         | None => Raise ValueError
         end).
Proof.
  assert (String.length (slice text 4 (-3)) = (String.length text - 7)%nat)
    as Hlen.
  { unfold slice, clamp.
    change (4 <? 0) with false. change (-3 <? 0) with true. cbv iota.
    rewrite substring_length. lia. }
  assert ((String.length text ≤ 7)%nat → slice text 4 (-3) = EmptyString)
    as Hshort.
  { intros Hle. apply string_length_0. rewrite Hlen. lia. }
  split; [done|]. split; [done|].
  intros items Hle Hthird. unfold Scraper.third_payload.
  by rewrite Hthird, Hshort.
Qed.

End SliceBounds.

Lemma payload_slice_length_witness :
  slice "<!---->" 4 (-3) = EmptyString.
Proof.
  apply (proj1 (proj2 (payload_slice_length Sample.earth "<!---->"))).
  simpl. lia.
Defined.

(** ** The two versions of the extraction *)

Section Predecessor.
Context (W : world).

(** X15. [property_scrapper.py] extracts the payload like
    [property_scraper.py] on every page with at least three JSON script
    elements. On a page with fewer it has no handler: the [IndexError]
    leaves the function and nothing is written, where the later file
    writes the throttling message and raises [SystemExit]. *)
Theorem predecessor_has_no_throttling_handler content items :
  json_scripts W content = Ok items →
  ((3 ≤ length items)%nat →
   Scrapper.get_full_site_json W content = Scraper.get_full_site_json W content)
  ∧ ((length items < 3)%nat →
     Scrapper.get_full_site_json W content = IO [] (Raise IndexError)
     ∧ Scraper.get_full_site_json W content =
         IO [Stderr Scraper.throttling] (Raise (SystemExit None))).
Proof.
  intros Hitems.
  assert (Scrapper.get_full_site_json W content =
            IO [] (Scraper.third_payload W items)) as Hold.
  { unfold Scrapper.get_full_site_json. by rewrite Hitems, io_bind_lift_ok. }
  rewrite Hold, (get_full_site_json_cases W _ _ Hitems).
  pose proof (third_payload_IndexError W items) as Hidx.
  split.
  - intros Hlen. destruct (Scraper.third_payload W items) as [v|e]; [done|].
    destruct (is_IndexError e) eqn:He; [|done].
    assert (e = IndexError) as -> by by destruct e.
    assert (length items < 3)%nat by by apply Hidx. lia.
  - intros Hlen. apply Hidx in Hlen. by rewrite Hlen.
Qed.

End Predecessor.

Lemma predecessor_has_no_throttling_handler_witness :
  Scrapper.get_full_site_json Sample.earth "http://bnb/throttled" =
    IO [] (Raise IndexError)
  ∧ Scraper.get_full_site_json Sample.earth "http://bnb/throttled" =
      IO [Stderr Scraper.throttling] (Raise (SystemExit None)).
Proof.
  apply (proj2 (predecessor_has_no_throttling_handler Sample.earth
                  "http://bnb/throttled" [Some "<!--{}-->"; Some "<!--{}-->"]
                  eq_refl)).
  simpl. lia.
Defined.

(** ** What a stored listing must have *)

Section StoredListing.
Context (W : world).

Lemma cover_url_VStr photo photo_url :
  cover_url photo = Ok photo_url →
  ∃ cover, getattr photo "large_cover" = Ok (VStr cover).
Proof.
  unfold cover_url. destruct (getattr photo "large_cover") as [v|e]; [|done].
  simpl. destruct v as [| | | |cover| |fields]; try done; [by exists cover|].
  simpl. by destruct (assoc "split" fields).
Qed.

(** X16. A row is written only for a listing that has all of the
    eleven attributes that [__store_db] reads, a review interface with
    both numbers, which are stored as their [str], and a first photo
    whose cover address is a string: with any of them missing the call
    raises and the table keeps no part of the listing. *)
Theorem store_db_requires_every_field url listing r :
  store_db W url listing = Ok r →
  (∀ attr, attr ∈ required_fields → ∃ v, getattr listing attr = Ok v)
  ∧ (∃ interface score count,
       getattr listing "review_details_interface" = Ok interface
       ∧ getattr interface "review_score" = Ok score
       ∧ getattr interface "review_count" = Ok count
       ∧ col_rating r = SqlText (str W score)
       ∧ col_review_count r = SqlText (str W count))
  ∧ (∃ photos photo cover,
       getattr listing "photos" = Ok photos
       ∧ subscript photos 0 = Ok photo
       ∧ getattr photo "large_cover" = Ok (VStr cover)).
Proof.
  intros Hstore. unfold store_db in Hstore. repeat step_hyp Hstore.
  injection Hstore as <-. split; [|split].
  - intros attr Hattr. apply list_elem_of_In in Hattr. simpl in Hattr.
    repeat (destruct Hattr as [<-|Hattr]; [by eexists|]). done.
  - do 3 eexists. cbn [col_rating col_review_count]. by repeat split.
  - match goal with
    | H : cover_url _ = Ok _ |- _ => destruct (cover_url_VStr _ _ H) as [cover Hc]
    end.
    do 3 eexists. by repeat split.
Qed.


End StoredListing.

Lemma store_db_requires_every_field_witness :
  ∃ v, getattr Sample.listing "photos" = Ok v.
Proof.
  destruct (store_db Sample.earth "http://bnb/1" Sample.listing)
    as [r|e] eqn:Hr; [|by vm_compute in Hr].
  apply (proj1 (store_db_requires_every_field Sample.earth "http://bnb/1"
                  Sample.listing r Hr)).
  unfold required_fields. by repeat constructor.
Defined.


(** ** The report of property_scrapper.py *)

Section Report.
Context (W : world).

Lemma append_all_app tuples info :
  Scrapper.append_all tuples info =
    (info ++ (Scrapper.append_all tuples []).1, (Scrapper.append_all tuples []).2).
Proof.
  revert info; induction tuples as [|[t|e] tuples IH]; intros info; simpl.
  - by rewrite app_nil_r.
  - rewrite (IH (info ++ [t])), (IH [t]). simpl. by rewrite <- app_assoc.
  - by rewrite app_nil_r.
Qed.

Lemma append_all_length tuples :
  (Scrapper.append_all tuples []).2 = Ok tt →
  length (Scrapper.append_all tuples []).1 = length tuples.
Proof.
  induction tuples as [|[t|e] tuples IH]; simpl; [done| |done].
  rewrite (append_all_app tuples [t]). simpl. intros H. by rewrite IH.
Qed.

(** What [print_listing] does after its [info.append] statements have
    gone through. *)
Lemma print_listing_appended listing info :
  (Scrapper.append_all (Scrapper.info_tuples W listing) []).2 = Ok tt →
  Scrapper.print_listing W listing info =
    (info ++ (Scrapper.append_all (Scrapper.info_tuples W listing) []).1,
     IO ((info ++ (Scrapper.append_all (Scrapper.info_tuples W listing) []).1)
           ≫= Scrapper.print_info) (Ok tt);;
     write (Stdout "Amenities:");;
     items ← lift (getattr listing "listing_amenities" ≫= iter);
     Scrapper.print_amenities items).
Proof.
  intros Happ. unfold Scrapper.print_listing.
  rewrite append_all_app, Happ. cbn [fst snd].
  f_equal; by rewrite ?io_bind_lift_ok.
Qed.

Lemma io_bind_IO_ok {B} o (f : unit → io B) :
  IO o (Ok tt) ≫= f = IO (o ++ out (f tt)) (res (f tt)).
Proof. done. Qed.

(** X18. The list behind the default argument of [print_listing] is
    one list for all calls. When the appends of a call go through, the
    call leaves its eight tuples behind whatever was in the list, and
    prints what was in the list before printing what a first call
    prints for the listing: the second listing of a process is
    reported after a repetition of the first. *)
Theorem print_listing_repeats_earlier_calls listing info :
  (Scrapper.append_all (Scrapper.info_tuples W listing) []).2 = Ok tt →
  (Scrapper.print_listing W listing info).1 =
    info ++ (Scrapper.print_listing W listing []).1
  ∧ length (Scrapper.print_listing W listing []).1 = 8%nat
  ∧ out (Scrapper.print_listing W listing info).2 =
      (info ≫= Scrapper.print_info) ++ out (Scrapper.print_listing W listing []).2
  ∧ res (Scrapper.print_listing W listing info).2 =
      res (Scrapper.print_listing W listing []).2.
Proof.
  intros Happ. rewrite !print_listing_appended by done. cbn [fst snd].
  rewrite !io_bind_IO_ok. cbn [out res app].
  split; [done|]. split; [by rewrite append_all_length|].
  split; [|done]. by rewrite bind_app, <- app_assoc.
Qed.

Lemma print_amenities_filter items (l : list (string * bool)) :
  Forall2 amenity_of items l →
  Scrapper.print_amenities items =
    IO (Stdout <$> (String.append "   " <$> (List.filter snd l).*1)) (Ok tt).
Proof.
  induction 1 as [|a [n p] items l [Hp Hn] _ IH]; [done|].
  simpl in Hp, Hn. cbn [Scrapper.print_amenities]. rewrite Hp, io_bind_lift_ok.
  cbn [truthy]. destruct p; cbn [List.filter snd].
  - rewrite Hn by done. cbn [mbind result_bind Scrapper.add_str].
    rewrite io_bind_lift_ok. rewrite IH. done.
  - by rewrite IH.
Qed.

(** X19. After the tuples, [print_listing] prints the line
    [Amenities:] and then, indented, the names of the amenities whose
    presence flag is true, in the payload's order and no others. *)
Theorem print_listing_lists_present_amenities listing info items
    (l : list (string * bool)) :
  (Scrapper.append_all (Scrapper.info_tuples W listing) []).2 = Ok tt →
  getattr listing "listing_amenities" = Ok (VList items) →
  Forall2 amenity_of items l →
  (Scrapper.print_listing W listing info).2 =
    IO (((Scrapper.print_listing W listing info).1 ≫= Scrapper.print_info)
        ++ Stdout "Amenities:"
        :: (Stdout <$> (String.append "   " <$> (List.filter snd l).*1)))
       (Ok tt).
Proof.
  intros Happ Hamen Hitems. rewrite print_listing_appended by done.
  cbn [fst snd]. rewrite Hamen. cbn [mbind result_bind iter].
  rewrite io_bind_IO_ok. unfold write at 1. rewrite io_bind_IO_ok.
  rewrite io_bind_lift_ok, (print_amenities_filter items l Hitems).
  done.
Qed.

(** X20. The report and the row show the same data: for a listing
    that [__store_db] stores and [print_listing] reports, the eight
    tuples are the labels with the text columns of the row, the rating
    line is made of its two review columns, and the photo line is its
    [photo_url] column. *)
Theorem report_and_row_agree url listing r tuples :
  store_db W url listing = Ok r →
  Scrapper.append_all (Scrapper.info_tuples W listing) [] = (tuples, Ok tt) →
  ∃ name market rating count kind bed bath guest price photo_url description,
    tuples =
      [["Name:"; "   " +:+ name];
       ["Market:"; "   " +:+ market];
       ["Rating:"; "   " +:+ rating +:+ "/100 - " +:+ count +:+ " reviews"];
       ["Property Type:"; "   " +:+ kind];
       ["At a Glance:"; "   " +:+ bed; "   " +:+ bath; "   Guests - " +:+ guest];
       ["Price:"; "   " +:+ price];
       ["Photo:"; "   " +:+ photo_url];
       ["Description:"; "   " +:+ description]]
    ∧ r = {| col_url := SqlText url;
             col_name := SqlText name;
             col_market := SqlText market;
             col_rating := SqlText rating;
             col_review_count := SqlText count;
             col_type := SqlText kind;
             col_bed := SqlText bed;
             col_bath := SqlText bath;
             col_guest := SqlText guest;
             col_price := SqlText price;
             col_photo_url := SqlText photo_url;
             col_description := SqlText description;
             col_amenities := col_amenities r |}.
Proof.
  intros Hstore Happ. unfold store_db in Hstore.
  unfold Scrapper.info_tuples in Happ. revert Happ.
  repeat step_hyp Hstore. injection Hstore as <-. simpl. intros Happ.
  repeat match goal with
         | H : ?m = Ok _ |- _ => rewrite H in Happ; simpl in Happ
         end.
  repeat match type of Happ with
         | context [Scrapper.add_str _ ?v] =>
             is_var v; destruct v; simpl in Happ; try discriminate Happ
         end.
  simplify_eq/=. by do 11 eexists.
Qed.

End Report.

Lemma print_listing_repeats_earlier_calls_witness :
  out (Scrapper.print_listing Sample.earth Sample.listing
         (Scrapper.print_listing Sample.earth Sample.listing []).1).2 =
    ((Scrapper.print_listing Sample.earth Sample.listing []).1
       ≫= Scrapper.print_info)
    ++ out (Scrapper.print_listing Sample.earth Sample.listing []).2.
Proof.
  exact (proj1 (proj2 (proj2
    (print_listing_repeats_earlier_calls Sample.earth Sample.listing
       (Scrapper.print_listing Sample.earth Sample.listing []).1 eq_refl)))).
Defined.

Lemma print_listing_lists_present_amenities_witness :
  (Scrapper.print_listing Sample.earth Sample.listing []).2 =
    IO (((Scrapper.print_listing Sample.earth Sample.listing []).1
           ≫= Scrapper.print_info)
        ++ [Stdout "Amenities:"; Stdout "   Wifi"]) (Ok tt).
Proof.
  apply (print_listing_lists_present_amenities Sample.earth Sample.listing []
           [Sample.amenity "Wifi" true; Sample.amenity "Pool" false]
           [("Wifi", true); ("Pool", false)] eq_refl eq_refl).
  by repeat constructor.
Defined.

Lemma report_and_row_agree_witness :
  ∃ r tuples,
    store_db Sample.earth "http://bnb/1" Sample.listing = Ok r
    ∧ Scrapper.append_all (Scrapper.info_tuples Sample.earth Sample.listing) []
      = (tuples, Ok tt)
    ∧ ["Photo:"; "   https://img/1.jpg"] ∈ tuples
    ∧ col_photo_url r = SqlText "https://img/1.jpg".
Proof.
  destruct (store_db Sample.earth "http://bnb/1" Sample.listing)
    as [r|e] eqn:Hr; [|by vm_compute in Hr].
  destruct (Scrapper.append_all (Scrapper.info_tuples Sample.earth Sample.listing) [])
    as [tuples [[]|e]] eqn:Ht; [|by vm_compute in Ht].
  destruct (report_and_row_agree Sample.earth "http://bnb/1" Sample.listing
              r tuples Hr Ht) as (? & ? & ? & ? & ? & ? & ? & ? & ? & ? & ? & _ & _).
  exists r, tuples. split; [done|]. split; [done|].
  vm_compute in Hr, Ht. injection Hr as <-. injection Ht as <-.
  split; [|done]. do 6 apply list_elem_of_further. apply list_elem_of_here.
Defined.

(** ** The part of the payload that is converted *)

Section Conversion.
Context (W : world).

(** X21. Only the [listing] part of the payload is turned into named
    tuples: keys that [namedtuple] refuses do no harm anywhere else in
    the payload. With the listing found, the constructor returns it as
    it is when all of its keys are field names, and the turn goes on to
    [__store_db]; it raises [ValueError] otherwise. *)
Theorem only_the_listing_is_converted url content items text site bootstrap listing :
  requests_get W url = Ok content →
  json_scripts W content = Ok items →
  items !! 2%nat = Some (Some text) →
  json_loads W (slice text 4 (-3)) = Some site →
  getitem site "bootstrapData" = Ok bootstrap →
  getitem bootstrap "listing" = Ok listing →
  Scraper.init W url = IO [] (Scraper.json2obj W listing)
  ∧ (Scraper.field_names_ok W listing = true →
     scrape W url = IO [] (store_db W url listing))
  ∧ (Scraper.field_names_ok W listing = false →
     scrape W url = IO [] (Raise ValueError)).
Proof.
  intros Hget Hitems Hthird Hloads Hbootstrap Hlisting.
  assert (Scraper.init W url = IO [] (Scraper.json2obj W listing)) as Hinit.
  { rewrite init_cases, Hget.
    assert (Scraper.set_listing W content = IO [] (Scraper.json2obj W listing))
      as ->.
    { unfold Scraper.set_listing, Scraper.get_listing_json.
      rewrite (get_full_site_json_third W _ _ _ Hitems Hthird), Hloads.
      unfold mbind, io_bind, lift. simpl. rewrite Hbootstrap. simpl.
      by rewrite Hlisting. }
    unfold try_except, Scraper.json2obj. simpl.
    by destruct (Scraper.field_names_ok W listing). }
  split; [done|]. unfold scrape. rewrite Hinit. unfold Scraper.json2obj.
  split; intros ->; [apply (io_bind_lift_ok listing) | done].
Qed.

End Conversion.

Lemma only_the_listing_is_converted_witness :
  Scraper.init Sample.earth "http://bnb/1" = IO [] (Ok Sample.listing).
Proof.
  exact (proj1 (only_the_listing_is_converted Sample.earth "http://bnb/1"
           "http://bnb/1" [Some "<!--{}-->"; None; Some "<!--http://bnb/1-->"]
           "<!--http://bnb/1-->" (Sample.site Sample.listing)
           (VObj [("listing", Sample.listing)]) Sample.listing
           eq_refl eq_refl eq_refl eq_refl eq_refl eq_refl)).
Defined.

(** ** property_scrapper.py run as a script *)

Section Script.
Context (W : world).

Lemma script_one_argument prog url :
  Scrapper.script W [prog; url] =
    (listing ← Scrapper.init W url; (Scrapper.print_listing W listing []).2).
Proof. exact (io_bind_lift_ok url _). Qed.

(** X22. Run with anything but one argument, the script prints its
    three usage lines and fetches nothing. Run with one, it reports the
    listing at that address; an address without scheme gets the line
    [Invalid URL] and [SystemExit], and a page with fewer than three
    JSON script elements ends the script with [IndexError] before it
    has printed anything. *)
Theorem script_usage_and_failures prog :
  (∀ rest, length rest ≠ 1%nat →
     Scrapper.script W (prog :: rest) =
       IO [Stdout "Usage:"; Stdout (prog +:+ " <listing_url>"); Stdout ""]
          (Ok tt))
  ∧ (∀ url, requests_get W url = Raise MissingSchema →
       Scrapper.script W [prog; url] =
         IO [Stdout "Invalid URL"] (Raise (SystemExit None)))
  ∧ (∀ url content items,
       requests_get W url = Ok content →
       json_scripts W content = Ok items →
       (length items < 3)%nat →
       Scrapper.script W [prog; url] = IO [] (Raise IndexError))
  ∧ (∀ url listing,
       Scrapper.init W url = IO [] (Ok listing) →
       Scrapper.script W [prog; url] =
         (Scrapper.print_listing W listing []).2).
Proof.
  split; [|split; [|split]].
  - intros rest Hrest. unfold Scrapper.script. simpl length.
    destruct (Nat.eqb_spec (S (length rest)) 2) as [Heq|_]; [lia|].
    reflexivity.
  - intros url Hget. rewrite script_one_argument.
    unfold Scrapper.init. by rewrite Hget.
  - intros url content items Hget Hitems Hlen. rewrite script_one_argument.
    unfold Scrapper.init. rewrite Hget, io_bind_lift_ok.
    unfold Scrapper.set_listing, Scrapper.get_listing_json,
      Scrapper.get_full_site_json.
    rewrite Hitems, io_bind_lift_ok. unfold Scraper.third_payload.
    by rewrite (lookup_ge_None_2 items 2) by lia.
  - intros url listing Hinit. rewrite script_one_argument, Hinit.
    exact (io_bind_lift_ok listing _).
Qed.

End Script.

Lemma script_usage_and_failures_witness :
  Scrapper.script Sample.earth ["prog"; "http://bnb/throttled"] =
    IO [] (Raise IndexError).
Proof.
  destruct (script_usage_and_failures Sample.earth "prog") as (_ & _ & H & _).
  apply (H "http://bnb/throttled" "http://bnb/throttled"
           [Some "<!--{}-->"; Some "<!--{}-->"] eq_refl eq_refl).
  simpl. lia.
Defined.
